(** * AssetServer: asset resolution of the React Native packager

    A shallow embedding of
    [packager/react-packager/src/AssetServer/index.js] and the
    properties of its specification.

    Modelling conventions.
    - A JavaScript number that carries a pixel density is a finite
      double; the code only compares such numbers, never computes with
      them, and comparison of finite doubles is exact.  They are
      embedded as canonical rationals [Qc], whose Leibniz equality is
      numeric equality.
    - A promise is embedded by its outcome, [Result]: fulfilled with a
      value or rejected with an error.  The one place where the order in
      which promises settle is observable, Bluebird's [Promise.some] and
      [Promise.all], takes that order as an explicit argument.
    - The object used as a map, [Object.create(null)], is a [gmap] keyed
      by strings.
    - Node's [path], [fs] and the file-name parser of the packager
      ([../lib/getAssetDataFromName]) are collaborators: they are
      parameters of the development. *)

From Stdlib Require Import ZArith QArith Qcanon String Ascii List.
From Stdlib Require Import Sorting.Sorted Permutation.
From stdpp Require Import gmap strings list fin_maps sorting pretty.

#[local] Set Warnings "-register-all".

(** ** JavaScript values *)

Module JS.

Abbreviation number := Qc (only parsing).

(** [a < b] on finite numbers. *)
Definition lt (a b : number) : bool :=
  match (a ?= b)%Qc with Lt => true | _ => false end.

(** [a >= b] on finite numbers. *)
Definition ge (a b : number) : bool :=
  match (a ?= b)%Qc with Lt => false | _ => true end.

(** Errors that reach the caller as rejection reasons. *)
Inductive error : Type :=
| Error (message : string)            (* new Error(message) *)
| SystemError (code : string) (path : string) (* fs: ENOENT, EACCES... *)
| TypeError (message : string)
| RangeError (message : string)
| AggregateError (reasons : list error). (* Bluebird *)

(** Outcome of a promise. *)
Inductive Result (A : Type) : Type :=
| Fulfilled (value : A)
| Rejected (reason : error).
Arguments Fulfilled {A} value.
Arguments Rejected {A} reason.

(** [p.then(f)], [f] returning a promise or throwing. *)
Definition andThen {A B} (p : Result A) (f : A -> Result B) : Result B :=
  match p with
  | Fulfilled a => f a
  | Rejected e => Rejected e
  end.

End JS.

Notation "p >>= f" := (JS.andThen p f) (at level 50, left associativity).

Import JS.

(** ** Bluebird's collection combinators

    The promises handed to [Promise.some] and [Promise.all] run
    concurrently.  [order] lists the indices of the input promises in the
    order in which they settle; it enumerates [0 .. length ps - 1]. *)

Module Bluebird.

(** [Promise.some(ps, 1)], once the array is known to be non-empty:
    fulfilled, with a one-element array, as soon as one promise is
    fulfilled; rejected, with the reasons in the order they were thrown,
    once every promise is rejected. *)
Fixpoint race1 {A} (ps : list (Result A)) (order : list nat)
    (thrown : list error) : Result (list A) :=
  match order with
  | [] => Rejected (AggregateError thrown)
  | i :: later =>
      match ps !! i with
      | Some (Fulfilled v) => Fulfilled [v]
      | Some (Rejected e) => race1 ps later (thrown ++ [e])
      | None => race1 ps later thrown
      end
  end.

(** [Promise.some(ps, 1)].  Asking for one fulfilment of an empty array
    is rejected at once. *)
Definition some1 {A} (ps : list (Result A)) (order : list nat)
    : Result (list A) :=
  match ps with
  | [] => Rejected (RangeError
            "Input array must contain at least 1 items but contains only 0 items")
  | _ => race1 ps order []
  end.

(** The first promise, in settling order, that is rejected. *)
Fixpoint firstRejection {A} (ps : list (Result A)) (order : list nat)
    : option error :=
  match order with
  | [] => None
  | i :: later =>
      match ps !! i with
      | Some (Rejected e) => Some e
      | _ => firstRejection ps later
      end
  end.

(** The values of an array of fulfilled promises, in array order. *)
Fixpoint values {A} (ps : list (Result A)) : Result (list A) :=
  match ps with
  | [] => Fulfilled []
  | Fulfilled v :: rest => values rest >>= fun vs => Fulfilled (v :: vs)
  | Rejected e :: _ => Rejected e
  end.

(** [Promise.all(ps)]: rejected with the reason of the first promise to
    be rejected, otherwise fulfilled with all values in array order. *)
Definition all {A} (ps : list (Result A)) (order : list nat)
    : Result (list A) :=
  match firstRejection ps order with
  | Some e => Rejected e
  | None => values ps
  end.

End Bluebird.

(** ** MD5 (RFC 1321), as [crypto.createHash('md5')] computes it

    Bytes and 32-bit words are integers; additions wrap modulo [2^32]. *)

Module MD5.

Local Open Scope Z_scope.

Definition word (x : Z) : Z := x mod 2 ^ 32.

Definition rotl (x c : Z) : Z :=
  word (Z.lor (Z.shiftl x c) (Z.shiftr x (32 - c))).

Definition lnot32 (x : Z) : Z := Z.lxor x 0xffffffff.

(** [K i = floor (2^32 * |sin (i + 1)|)]. *)
Definition K : list Z := [
  0xd76aa478; 0xe8c7b756; 0x242070db; 0xc1bdceee;
  0xf57c0faf; 0x4787c62a; 0xa8304613; 0xfd469501;
  0x698098d8; 0x8b44f7af; 0xffff5bb1; 0x895cd7be;
  0x6b901122; 0xfd987193; 0xa679438e; 0x49b40821;
  0xf61e2562; 0xc040b340; 0x265e5a51; 0xe9b6c7aa;
  0xd62f105d; 0x02441453; 0xd8a1e681; 0xe7d3fbc8;
  0x21e1cde6; 0xc33707d6; 0xf4d50d87; 0x455a14ed;
  0xa9e3e905; 0xfcefa3f8; 0x676f02d9; 0x8d2a4c8a;
  0xfffa3942; 0x8771f681; 0x6d9d6122; 0xfde5380c;
  0xa4beea44; 0x4bdecfa9; 0xf6bb4b60; 0xbebfbc70;
  0x289b7ec6; 0xeaa127fa; 0xd4ef3085; 0x04881d05;
  0xd9d4d039; 0xe6db99e5; 0x1fa27cf8; 0xc4ac5665;
  0xf4292244; 0x432aff97; 0xab9423a7; 0xfc93a039;
  0x655b59c3; 0x8f0ccc92; 0xffeff47d; 0x85845dd1;
  0x6fa87e4f; 0xfe2ce6e0; 0xa3014314; 0x4e0811a1;
  0xf7537e82; 0xbd3af235; 0x2ad7d2bb; 0xeb86d391
]%list.

(** Rotation amounts of the four rounds. *)
Definition shifts : list Z := [
  7; 12; 17; 22; 7; 12; 17; 22; 7; 12; 17; 22; 7; 12; 17; 22;
  5; 9; 14; 20; 5; 9; 14; 20; 5; 9; 14; 20; 5; 9; 14; 20;
  4; 11; 16; 23; 4; 11; 16; 23; 4; 11; 16; 23; 4; 11; 16; 23;
  6; 10; 15; 21; 6; 10; 15; 21; 6; 10; 15; 21; 6; 10; 15; 21
]%list.

(** The [n] low bytes of [x], least significant first. *)
Fixpoint le_bytes (n : nat) (x : Z) : list Z :=
  match n with
  | O => []
  | S n' => x mod 256 :: le_bytes n' (x / 256)
  end.

(** A little-endian word from its bytes. *)
Fixpoint le_word (bs : list Z) : Z :=
  match bs with
  | [] => 0
  | b :: rest => b + 256 * le_word rest
  end.

(** Pad to a multiple of 64 bytes: [0x80], zeros up to 56 modulo 64, then
    the bit length on 8 bytes. *)
Definition pad (msg : list Z) : list Z :=
  let len := length msg in
  msg ++ 0x80 :: repeat 0 ((119 - len mod 64) mod 64)%nat
      ++ le_bytes 8 (8 * Z.of_nat len).

(** Cut into pieces of [n] elements; [fuel] bounds the number of pieces. *)
Fixpoint pieces {A} (n : nat) (l : list A) (fuel : nat) : list (list A) :=
  match fuel with
  | O => []
  | S fuel' =>
      match l with
      | [] => []
      | _ => take n l :: pieces n (drop n l) fuel'
      end
  end.

Definition state : Type := Z * Z * Z * Z.

Definition init : state := (0x67452301, 0xefcdab89, 0x98badcfe, 0x10325476).

(** Operation [i] of the compression of the block with words [M]. *)
Definition operation (M : list Z) (st : state) (i : nat) : state :=
  let '(A, B, C, D) := st in
  let '(F, g) :=
    if (i <? 16)%nat then
      (Z.lor (Z.land B C) (Z.land (lnot32 B) D), i)
    else if (i <? 32)%nat then
      (Z.lor (Z.land D B) (Z.land (lnot32 D) C), ((5 * i + 1) mod 16)%nat)
    else if (i <? 48)%nat then
      (Z.lxor (Z.lxor B C) D, ((3 * i + 5) mod 16)%nat)
    else
      (Z.lxor C (Z.lor B (lnot32 D)), ((7 * i) mod 16)%nat) in
  let F' := word (F + A + nth i K 0 + nth g M 0) in
  (D, word (B + rotl F' (nth i shifts 0)), B, C).

Definition compress (st : state) (block : list Z) : state :=
  let M := List.map le_word (pieces 4 block 16) in
  let '(a0, b0, c0, d0) := st in
  let '(A, B, C, D) := fold_left (operation M) (seq 0 64) st in
  (word (a0 + A), word (b0 + B), word (c0 + C), word (d0 + D)).

(** The 16 bytes of the digest. *)
Definition md5 (msg : list Z) : list Z :=
  let padded := pad msg in
  let '(a, b, c, d) :=
    fold_left compress (pieces 64 padded (length padded)) init in
  le_bytes 4 a ++ le_bytes 4 b ++ le_bytes 4 c ++ le_bytes 4 d.

Definition hexDigit (x : Z) : ascii :=
  nth (Z.to_nat x)
    (list_ascii_of_string "0123456789abcdef") "0"%char.

Fixpoint hex (bs : list Z) : string :=
  match bs with
  | [] => EmptyString
  | b :: rest => String (hexDigit (b / 16)) (String (hexDigit (b mod 16)) (hex rest))
  end.

Definition bytesOfString (s : string) : list Z :=
  List.map (fun c => Z.of_N (N_of_ascii c)) (list_ascii_of_string s).

(** MD5 of a string of ASCII characters, in hexadecimal. *)
Definition md5hex (s : string) : string := hex (md5 (bytesOfString s)).

End MD5.

(** ** Data model *)

(** What [getAssetDataFromName] returns for a file name or a path. *)
Record AssetData := {
  assetName : string;   (* the name without its density suffix *)
  name : string;
  resolution : number;
  (* Modelled from the spec: the parser is not part of this source
     file; the specification lists the extension among its results. *)
  extension : string
}.

(** All density variants of one asset name within one directory. *)
Record AssetRecord := {
  scales : list number;
  files : list string
}.

(** What [fs.lstat] reports, as far as the server looks at it;
    [mtime] is [stat.mtime.getTime ()], in milliseconds. *)
Record Stats := {
  isDirectory : bool;
  mtime : Z
}.

(** A stat on which [findRoot] has recorded the path it belongs to. *)
Record LocatedStats := {
  stat : Stats;
  _path : string
}.

(** The file system at the time of a request. *)
Record FileSystem := {
  lstat : string -> Result Stats;
  readDir : string -> Result (list string);
  readFile : string -> Result string
}.

(** The order in which the concurrent operations of a request settle:
    the probes of the roots, and the stats of the files of a record. *)
Record Timing := {
  probes : list nat;
  stats : list nat
}.

(** The descriptor returned by [getAssetData]. *)
Module Data.
Record t := {
  name : string;
  type : string;
  scales : list number;
  hash : string
}.
End Data.

(** The incremental hash object of [crypto]: it digests the concatenation
    of everything it was updated with. *)
Module Hash.
Definition t : Type := string.
Definition createHash_md5 : t := "".
Definition update (h : t) (data : string) : t := h +:+ data.
Definition digest_hex (h : t) : string := MD5.md5hex h.
End Hash.

(** [a[i]] for an integer index: [undefined] outside the array. *)
Definition index {A} (a : list A) (i : Z) : option A :=
  if (i <? 0)%Z then None else a !! Z.to_nat i.

(** [a.splice(start, 0, x)]. *)
Definition splice {A} (a : list A) (start : nat) (x : A) : list A :=
  take start a ++ x :: drop start a.

(** [fs.readFile] of a value that may be [undefined]. *)
Definition readFile_value (fs : FileSystem) (p : option string)
    : Result string :=
  match p with
  | Some file => readFile fs file
  | None => Rejected (TypeError "path must be a string")
  end.

(** ** The server *)

Record Options := {
  projectRoots : list string;
  assetExts : option (list string)
}.

Record AssetServer := {
  _roots : list string;
  _assetExts : list string
}.

(** The constructor; [validateOpts] fills in the default of [assetExts]. *)
Definition new_AssetServer (options : Options) : AssetServer :=
  {| _roots := projectRoots options;
     _assetExts := default ["png"] (assetExts options) |}.

Section Server.

(** The file-name parser and Node's [path]. *)
Variable getAssetDataFromName : string -> AssetData.
Variable path_join : string -> string -> string.
Variable path_basename : string -> string.
Variable path_dirname : string -> string.

(** *** [findRoot] *)

Definition probe (fs : FileSystem) (dir root : string) : Result LocatedStats :=
  let absPath := path_join root dir in
  lstat fs absPath >>= fun stat =>
    if negb (isDirectory stat) then Rejected (Error "Looking for dirs")
    else Fulfilled {| stat := stat; _path := absPath |}.

Definition findRoot (fs : FileSystem) (t : Timing) (roots : list string)
    (dir : string) : Result string :=
  Bluebird.some1 (List.map (probe fs dir) roots) (probes t) >>= fun found =>
    match found with
    | stat :: _ => Fulfilled (_path stat)
    | [] => Rejected (TypeError "Cannot read property '_path' of undefined")
    end.

(** *** [buildAssetMap] *)

(** The loop that looks for the place of [resolution] in [scales],
    entered with [insertIndex] and [fuel = length - insertIndex]
    iterations to go. *)
Fixpoint findInsertIndex (resolution : number) (scales : list number)
    (insertIndex fuel : nat) : nat :=
  match fuel with
  | O => insertIndex
  | S fuel' =>
      match scales !! insertIndex with
      | Some s =>
          if JS.lt resolution s then insertIndex
          else findInsertIndex resolution scales (S insertIndex) fuel'
      | None => findInsertIndex resolution scales (S insertIndex) fuel'
      end
  end.

(** The body of [assets.forEach]: [entry] is [(asset, files[i])]. *)
Definition addAsset (dir : string) (map : gmap string AssetRecord)
    (entry : AssetData * string) : gmap string AssetRecord :=
  let '(asset, file) := entry in
  let record :=
    match map !! assetName asset with
    | Some record => record
    | None => {| scales := []; files := [] |}
    end in
  let length := length (scales record) in
  let insertIndex :=
    findInsertIndex (resolution asset) (scales record) 0 length in
  <[assetName asset :=
      {| scales := splice (scales record) insertIndex (resolution asset);
         files := splice (files record) insertIndex (path_join dir file) |}]>
    map.

Definition buildAssetMap (dir : string) (files : list string)
    : gmap string AssetRecord :=
  let assets := List.map getAssetDataFromName files in
  fold_left (addAsset dir) (zip assets files) ∅.

(** *** [_getAssetRecord] *)

Definition _getAssetRecord (this : AssetServer) (fs : FileSystem)
    (t : Timing) (assetPath : string) : Result AssetRecord :=
  let filename := path_basename assetPath in
  findRoot fs t (_roots this) (path_dirname assetPath) >>= fun dir =>
  readDir fs dir >>= fun files =>
    let assetData := getAssetDataFromName filename in
    let map := buildAssetMap dir files in
    match map !! assetName assetData with
    | None => Rejected (Error "Asset not found")
    | Some record => Fulfilled record
    end.

(** *** [get] *)

(** The selection loop, entered with [i] and [fuel = length - i]
    iterations to go: the index at which it returns, if it does. *)
Fixpoint firstAtLeast (scales : list number) (resolution : number)
    (i fuel : nat) : option nat :=
  match fuel with
  | O => None
  | S fuel' =>
      match scales !! i with
      | Some s =>
          if JS.ge s resolution then Some i
          else firstAtLeast scales resolution (S i) fuel'
      | None => firstAtLeast scales resolution (S i) fuel'
      end
  end.

(** The element of [record.files] that [get] passes to [readFile]. *)
Definition selectFile (record : AssetRecord) (resolution : number)
    : option string :=
  match firstAtLeast (scales record) resolution 0 (length (scales record)) with
  | Some i => files record !! i
  | None => index (files record) (Z.of_nat (length (files record)) - 1)
  end.

Definition get (this : AssetServer) (fs : FileSystem) (t : Timing)
    (assetPath : string) : Result string :=
  let assetData := getAssetDataFromName assetPath in
  _getAssetRecord this fs t assetPath >>= fun record =>
    readFile_value fs (selectFile record (resolution assetData)).

(** *** [getAssetData] *)

(** [stats.forEach (stat => hash.update (stat.mtime.getTime ().toString ()))]. *)
Definition updateAll (hash : Hash.t) (stats : list Stats) : Hash.t :=
  fold_left (fun h stat => Hash.update h (pretty (mtime stat))) stats hash.

Definition getAssetData (this : AssetServer) (fs : FileSystem) (t : Timing)
    (assetPath : string) : Result Data.t :=
  let nameData := getAssetDataFromName assetPath in
  _getAssetRecord this fs t assetPath >>= fun record =>
  Bluebird.all (List.map (lstat fs) (files record)) (stats t) >>= fun stats =>
    let hash := updateAll Hash.createHash_md5 stats in
    Fulfilled {| Data.name := name nameData;
                 Data.type := "png";
                 Data.scales := scales record;
                 Data.hash := Hash.digest_hex hash |}.

End Server.

(** ** Vocabulary of the specification *)

Section Vocabulary.

Variable getAssetDataFromName : string -> AssetData.
Variable path_join : string -> string -> string.

(** The variants of a record: each scale with its file. *)
Definition entries (record : AssetRecord) : list (number * string) :=
  zip (scales record) (files record).

(** The variants of asset [n] that a listing of [dir] offers, in listing
    order: resolution and qualified path. *)
Definition variants (dir n : string) (listing : list string)
    : list (number * string) :=
  List.map
    (fun file => (resolution (getAssetDataFromName file), path_join dir file))
    (filter (fun file => assetName (getAssetDataFromName file) = n) listing).

(** The variants of a given scale, in the order of [l]. *)
Definition atScale (s : number) (l : list (number * string))
    : list (number * string) :=
  filter (fun e => e.1 = s) l.

(** [path] exists and is a directory. *)
Definition isDir (fs : FileSystem) (path : string) : Prop :=
  exists st, lstat fs path = Fulfilled st /\ isDirectory st = true.

(** The stats of [path], if it can be looked at. *)
Definition lstat_ok (fs : FileSystem) (path : string) : option Stats :=
  match lstat fs path with
  | Fulfilled st => Some st
  | Rejected _ => None
  end.

(** The modification time of [path], if it can be looked at. *)
Definition mtimeOf (fs : FileSystem) (path : string) : option Z :=
  mtime <$> lstat_ok fs path.

(** The string that the hash object has digested after the stats. *)
Definition digested (stats : list Stats) : string :=
  updateAll Hash.createHash_md5 stats.

(** The fingerprint of a record whose files have these stats. *)
Definition fingerprint (stats : list Stats) : string :=
  Hash.digest_hex (digested stats).

(** The reasons of the rejected promises, in settling order. *)
Definition reasons {A} (ps : list (Result A)) (order : list nat)
    : list error :=
  omap (fun i => match ps !! i with
                 | Some (Rejected e) => Some e
                 | _ => None
                 end) order.

End Vocabulary.

(** ** Insertion, as the proofs see it *)

(** The number of leading scales that are not above [resolution]: where
    the loop of [buildAssetMap] stops. *)
Fixpoint place (resolution : number) (scales : list number) : nat :=
  match scales with
  | [] => 0
  | s :: rest => if JS.lt resolution s then 0 else S (place resolution rest)
  end.

(** Insertion of a variant behind every variant that is not above it. *)
Fixpoint insertEntry (e : number * string) (l : list (number * string))
    : list (number * string) :=
  match l with
  | [] => [e]
  | e' :: rest =>
      if JS.lt e.1 e'.1 then e :: l else e' :: insertEntry e rest
  end.

(** Insertion of the variants of [l], first to last. *)
Definition insertAll (l acc : list (number * string))
    : list (number * string) :=
  fold_left (fun acc e => insertEntry e acc) l acc.

(** The record that holds the variants [l]. *)
Definition recordOf (l : list (number * string)) : AssetRecord :=
  {| scales := l.*1; files := l.*2 |}.

(** Variants in ascending order of scale. *)
Definition ascending : relation (number * string) :=
  fun e e' => (e.1 <= e'.1)%Qc.

(** ** A sample installation

    A small [path], a parser given by its table on the file names of the
    specification's examples, and file systems given by their tables. *)

Module Sample.

Fixpoint assoc {A} (table : list (string * A)) (key : string) : option A :=
  match table with
  | [] => None
  | (k, v) :: rest => if String.eqb k key then Some v else assoc rest key
  end.

(** The components of a path, split at ["/"]: what precedes the last
    separator, if there is one, and what follows it. *)
Fixpoint splitLast (p : string) : option string * string :=
  match p with
  | EmptyString => (None, EmptyString)
  | String c rest =>
      let '(d, b) := splitLast rest in
      if Ascii.eqb c "/" then
        match d with
        | None => (Some EmptyString, b)
        | Some d' => (Some (String c d'), b)
        end
      else
        match d with
        | None => (None, String c b)
        | Some d' => (Some (String c d'), b)
        end
  end.

Definition basename (p : string) : string := (splitLast p).2.

Definition dirname (p : string) : string :=
  match (splitLast p).1 with
  | None => "."
  | Some EmptyString => "/"
  | Some d => d
  end.

Definition join (root dir : string) : string :=
  if String.eqb dir "." then root else root +:+ "/" +:+ dir.

Definition variant (base ext : string) (res : number) : AssetData :=
  {| assetName := base +:+ "." +:+ ext;
     name := base;
     resolution := res;
     extension := ext |}.

(** Modelled from the spec: the parser of file names on the names the
    examples use, a base name with an optional density suffix such as
    [@2x]; a name without suffix has resolution 1. *)
Definition parserTable : list (string * AssetData) := [
  ("icon.png", variant "icon" "png" (Q2Qc 1));
  ("icon@1x.png", variant "icon" "png" (Q2Qc 1));
  ("icon@2x.png", variant "icon" "png" (Q2Qc 2));
  ("icon@2.5x.png", variant "icon" "png" (Q2Qc (5 # 2)));
  ("icon@3x.png", variant "icon" "png" (Q2Qc 3));
  ("icon@5x.png", variant "icon" "png" (Q2Qc 5));
  ("logo.png", variant "logo" "png" (Q2Qc 1));
  ("photo.jpg", variant "photo" "jpg" (Q2Qc 1))
].

Definition parse (file : string) : AssetData :=
  match assoc parserTable file with
  | Some data => data
  | None =>
      {| assetName := file; name := file; resolution := Q2Qc 1;
         extension := "" |}
  end.

(** A file system from the tables of its directories, with their
    listings, of its files, with modification time and content, and of
    the paths that may not be looked at. *)
Definition fileSystem (dirs : list (string * list string))
    (regular : list (string * (Z * string))) (denied : list string)
    : FileSystem :=
  {| lstat p :=
       if existsb (String.eqb p) denied then Rejected (SystemError "EACCES" p)
       else match assoc dirs p, assoc regular p with
            | Some _, _ => Fulfilled {| isDirectory := true; mtime := 0 |}
            | None, Some (time, _) =>
                Fulfilled {| isDirectory := false; mtime := time |}
            | None, None => Rejected (SystemError "ENOENT" p)
            end;
     readDir p :=
       if existsb (String.eqb p) denied then Rejected (SystemError "EACCES" p)
       else match assoc dirs p, assoc regular p with
            | Some listing, _ => Fulfilled listing
            | None, Some _ => Rejected (SystemError "ENOTDIR" p)
            | None, None => Rejected (SystemError "ENOENT" p)
            end;
     readFile p :=
       if existsb (String.eqb p) denied then Rejected (SystemError "EACCES" p)
       else match assoc dirs p, assoc regular p with
            | Some _, _ => Rejected (SystemError "EISDIR" p)
            | None, Some (_, content) => Fulfilled content
            | None, None => Rejected (SystemError "ENOENT" p)
            end |}.

(** The project of the specification's example, with a third variant. *)
Definition project (listing : list string) (t1 t2 t3 : Z) : FileSystem :=
  fileSystem
    [("/proj", listing)]
    [("/proj/icon.png", (t1, "icon at 1x"));
     ("/proj/icon@2x.png", (t2, "icon at 2x"));
     ("/proj/icon@3x.png", (t3, "icon at 3x"));
     ("/proj/icon@1x.png", (t2, "icon at 1x, again"));
     ("/proj/photo.jpg", (t1, "a photograph"))]
    [].

Definition server : AssetServer :=
  new_AssetServer {| projectRoots := ["/proj"]; assetExts := None |}.

(** The three variants of the icon, as the directory lists them and in
    ascending order, and their record. *)
Definition listed : list string :=
  ["icon@3x.png"; "icon.png"; "icon@2x.png"].

Definition sorted : list string :=
  ["icon.png"; "icon@2x.png"; "icon@3x.png"].

Definition icons : AssetRecord :=
  {| scales := [Q2Qc 1; Q2Qc 2; Q2Qc 3];
     files := ["/proj/icon.png"; "/proj/icon@2x.png"; "/proj/icon@3x.png"] |}.

(** One root, whose probe settles; the stats of the files settle in the
    order [order]. *)
Definition oneRoot (order : list nat) : Timing :=
  {| probes := [0]; stats := order |}.

(** Several roots, whose probes settle in the order [order]. *)
Definition settling (order : list nat) : Timing :=
  {| probes := order; stats := [] |}.

(** Two roots, [/A] and [/B], that both hold a directory [d]. *)
Definition twoRoots : FileSystem :=
  fileSystem [("/A/d", ["icon.png"]); ("/B/d", ["icon.png"])] [] [].

(** The same, where [/A/d] may not be looked at. *)
Definition deniedRoot : FileSystem :=
  fileSystem [("/A/d", ["icon.png"]); ("/B/d", ["icon.png"])] [] ["/A/d"].

End Sample.

(** * Properties *)

(** ** Comparison of numbers *)

Lemma lt_spec a b : JS.lt a b = true <-> (a < b)%Qc.
Proof.
  unfold JS.lt. rewrite Qclt_alt. destruct (a ?= b)%Qc; intuition congruence.
Qed.

Lemma lt_false a b : JS.lt a b = false <-> (b <= a)%Qc.
Proof.
  rewrite <- not_true_iff_false, lt_spec. split.
  - apply Qcnot_lt_le.
  - apply Qcle_not_lt.
Qed.

Lemma ge_spec a b : JS.ge a b = true <-> (b <= a)%Qc.
Proof.
  rewrite <- lt_false. unfold JS.ge, JS.lt.
  destruct (a ?= b)%Qc; intuition congruence.
Qed.

Lemma ge_false a b : JS.ge a b = false <-> (a < b)%Qc.
Proof.
  rewrite <- lt_spec. unfold JS.ge, JS.lt.
  destruct (a ?= b)%Qc; intuition congruence.
Qed.

#[local] Instance Qcle_transitive : Transitive Qcle.
Proof. intros x y z. apply Qcle_trans. Qed.

#[local] Instance Qcle_antisymmetric : AntiSymm (=) Qcle.
Proof. intros x y. apply Qcle_antisym. Qed.

#[local] Instance ascending_transitive : Transitive ascending.
Proof. intros x y z. unfold ascending. apply Qcle_trans. Qed.

(** ** The test vectors of RFC 1321, appendix A.5 *)

Example md5_empty : MD5.md5hex "" = "d41d8cd98f00b204e9800998ecf8427e".
Proof. vm_compute. reflexivity. Qed.

Example md5_abc : MD5.md5hex "abc" = "900150983cd24fb0d6963f7d28e17f72".
Proof. vm_compute. reflexivity. Qed.

Example md5_digits :
  MD5.md5hex
    "12345678901234567890123456789012345678901234567890123456789012345678901234567890"
  = "57edf4a22be3c955ac49da2e2107b67a".
Proof. vm_compute. reflexivity. Qed.

(** ** Ordered insertion *)

Lemma findInsertIndex_place resolution l : forall pre,
  findInsertIndex resolution (pre ++ l) (length pre) (length l)
  = length pre + place resolution l.
Proof.
  induction l as [|s l IH]; intros pre; simpl.
  - lia.
  - rewrite list_lookup_middle by done.
    destruct (JS.lt resolution s); [lia|].
    replace (pre ++ s :: l) with ((pre ++ [s]) ++ l) by by rewrite <- app_assoc.
    replace (S (length pre)) with (length (pre ++ [s]))
      by (rewrite length_app; simpl; lia).
    rewrite IH, length_app. simpl. lia.
Qed.

Lemma findInsertIndex_0 resolution l :
  findInsertIndex resolution l 0 (length l) = place resolution l.
Proof. apply (findInsertIndex_place resolution l []). Qed.

Lemma splice_insertEntry resolution file : forall ss fs,
  length ss = length fs ->
  zip (splice ss (place resolution ss) resolution)
      (splice fs (place resolution ss) file)
  = insertEntry (resolution, file) (zip ss fs).
Proof.
  unfold splice.
  induction ss as [|s ss IH]; intros [|f fs] Hlen; simplify_eq/=; [done|].
  destruct (JS.lt resolution s); simpl; [done|].
  by rewrite IH.
Qed.

Lemma splice_length {A} (a : list A) start x :
  length (splice a start x) = S (length a).
Proof.
  unfold splice. rewrite length_app. simpl.
  rewrite length_take, length_drop. lia.
Qed.

Lemma insertEntry_length e l : length (insertEntry e l) = S (length l).
Proof.
  induction l as [|e' l IH]; simpl; [done|].
  destruct (JS.lt e.1 e'.1); simpl; [done|]. by rewrite IH.
Qed.

Lemma insertEntry_Permutation e l : insertEntry e l ≡ₚ e :: l.
Proof.
  induction l as [|e' l IH]; simpl; [done|].
  destruct (JS.lt e.1 e'.1); [done|].
  rewrite IH. apply Permutation_swap.
Qed.

Lemma insertEntry_sorted e l :
  StronglySorted ascending l -> StronglySorted ascending (insertEntry e l).
Proof.
  induction 1 as [|e' l Hsorted IH Hall]; simpl.
  - repeat constructor.
  - destruct (JS.lt e.1 e'.1) eqn:Hlt.
    + apply lt_spec, Qclt_le_weak in Hlt.
      constructor; [by constructor|].
      constructor; [done|].
      eapply Forall_impl; [exact Hall|].
      intros x Hx. unfold ascending in *. by etrans.
    + apply lt_false in Hlt. constructor; [done|].
      rewrite insertEntry_Permutation. by constructor.
Qed.

Lemma atScale_cons s e l :
  atScale s (e :: l) = if decide (e.1 = s) then e :: atScale s l else atScale s l.
Proof. unfold atScale. by rewrite filter_cons. Qed.

Lemma atScale_none s l : Forall (fun e => e.1 <> s) l -> atScale s l = [].
Proof.
  induction 1 as [|e l He _ IH]; [done|].
  by rewrite atScale_cons, decide_False.
Qed.

Lemma atScale_above s e l :
  (s < e.1)%Qc -> Forall (ascending e) l -> atScale s (e :: l) = [].
Proof.
  intros Hlt Hall. apply atScale_none. constructor.
  - intros Heq. simpl in Heq. rewrite Heq in Hlt. by apply Qclt_not_eq in Hlt.
  - eapply Forall_impl; [exact Hall|]. intros x Hx Heq. simpl in Heq.
    unfold ascending in Hx. rewrite <- Heq in Hlt.
    by apply Qclt_not_le in Hlt.
Qed.

Lemma insertEntry_atScale s e l :
  StronglySorted ascending l ->
  atScale s (insertEntry e l) = atScale s l ++ atScale s [e].
Proof.
  induction 1 as [|e' l Hsorted IH Hall]; simpl; [done|].
  destruct (JS.lt e.1 e'.1) eqn:Hlt.
  - apply lt_spec in Hlt. rewrite !(atScale_cons s e).
    case_decide as Hs; [|by rewrite app_nil_r].
    subst s. by rewrite (atScale_above _ e' l).
  - rewrite !(atScale_cons s e'), IH. by case_decide.
Qed.

Lemma insertAll_snoc l e acc :
  insertAll (l ++ [e]) acc = insertEntry e (insertAll l acc).
Proof. unfold insertAll. by rewrite fold_left_app. Qed.

Lemma insertAll_sorted l : StronglySorted ascending (insertAll l []).
Proof.
  induction l as [|e l IH] using rev_ind; [constructor|].
  rewrite insertAll_snoc. by apply insertEntry_sorted.
Qed.

Lemma insertAll_Permutation l : insertAll l [] ≡ₚ l.
Proof.
  induction l as [|e l IH] using rev_ind; [done|].
  rewrite insertAll_snoc, insertEntry_Permutation, IH.
  by rewrite Permutation_cons_append.
Qed.

Lemma insertAll_length l : length (insertAll l []) = length l.
Proof. by rewrite insertAll_Permutation. Qed.

Lemma insertAll_atScale s l : atScale s (insertAll l []) = atScale s l.
Proof.
  induction l as [|e l IH] using rev_ind; [done|].
  rewrite insertAll_snoc, insertEntry_atScale by apply insertAll_sorted.
  rewrite IH. unfold atScale. by rewrite filter_app.
Qed.

Lemma insertAll_nil l : insertAll l [] = [] <-> l = [].
Proof.
  split; [|by intros ->].
  intros H. apply Permutation_nil. by rewrite <- H, insertAll_Permutation.
Qed.

(** Sorted variants are determined by the variants of each scale. *)
Lemma sorted_atScale_eq a : forall b,
  StronglySorted ascending a -> StronglySorted ascending b ->
  (forall s, atScale s a = atScale s b) -> a = b.
Proof.
  induction a as [|x a IH]; intros b Ha Hb Heq.
  - destruct b as [|y b]; [done|].
    specialize (Heq y.1). rewrite atScale_cons in Heq.
    by rewrite decide_True in Heq.
  - destruct b as [|y b].
    { specialize (Heq x.1). rewrite atScale_cons in Heq.
      by rewrite decide_True in Heq. }
    apply StronglySorted_inv in Ha as [Ha Hxa].
    apply StronglySorted_inv in Hb as [Hb Hyb].
    assert (x.1 = y.1) as Hxy.
    { destruct (Qc_dec x.1 y.1) as [[Hlt|Hlt]|?]; [| |done].
      - specialize (Heq x.1). rewrite (atScale_above _ y b) in Heq by done.
        rewrite atScale_cons, decide_True in Heq; done.
      - specialize (Heq y.1). rewrite (atScale_above _ x a) in Heq by done.
        rewrite atScale_cons, decide_True in Heq; done. }
    pose proof (Heq x.1) as Hx.
    rewrite !atScale_cons, !decide_True in Hx by done.
    simplify_eq. f_equal. apply IH; [done..|].
    intros s. specialize (Heq s). rewrite !atScale_cons in Heq.
    case_decide; by simplify_eq.
Qed.

(** ** Strings and decimal numerals *)

Lemma append_cons x (a b : string) : String x a +:+ b = String x (a +:+ b).
Proof. reflexivity. Qed.

Lemma append_nil_l (b : string) : "" +:+ b = b.
Proof. reflexivity. Qed.

Ltac string_step := rewrite ?append_cons, ?append_nil_l; cbn [String.length].

Lemma append_assoc (a b c : string) : (a +:+ b) +:+ c = a +:+ (b +:+ c).
Proof. induction a as [|x a IH]; string_step; congruence. Qed.

Lemma append_nil_r (a : string) : a +:+ "" = a.
Proof. induction a as [|x a IH]; string_step; congruence. Qed.

Lemma append_length (a b : string) :
  String.length (a +:+ b) = String.length a + String.length b.
Proof. induction a as [|x a IH]; string_step; [done|]. rewrite IH. lia. Qed.

Lemma append_inj_r (s a b : string) : a +:+ s = b +:+ s -> a = b.
Proof.
  revert b. induction a as [|x a IH]; intros [|y b] Heq;
    rewrite ?append_cons, ?append_nil_l in Heq.
  - done.
  - apply (f_equal String.length) in Heq. cbn [String.length] in Heq.
    rewrite append_length in Heq. lia.
  - apply (f_equal String.length) in Heq. cbn [String.length] in Heq.
    rewrite append_length in Heq. lia.
  - injection Heq as -> Heq. f_equal. by apply IH.
Qed.

Lemma pretty_N_go_length x : forall s,
  String.length s <= String.length (pretty_N_go x s).
Proof.
  induction (N.lt_wf_0 x) as [x _ IH]; intros s.
  destruct (decide (x = 0)%N) as [->|Hpos]; [by rewrite pretty_N_go_0|].
  rewrite pretty_N_go_step by lia.
  etrans; [|apply IH; apply N.div_lt; lia]. simpl. lia.
Qed.

Lemma pretty_N_nonempty (x : N) : 0 < String.length (pretty x).
Proof.
  unfold pretty, pretty_N. case_decide as Hx; [simpl; lia|].
  rewrite pretty_N_go_step by lia.
  eapply Nat.lt_le_trans; [|apply pretty_N_go_length]. simpl. lia.
Qed.

(** The decimal numeral of an integer has at least one character. *)
Lemma pretty_Z_nonempty (z : Z) : 0 < String.length (pretty z).
Proof.
  destruct z as [|p|p]; unfold pretty, pretty_Z; simpl; [lia| |lia].
  apply pretty_N_nonempty.
Qed.

(** ** The digested string *)

Lemma updateAll_cons h stat stats :
  updateAll h (stat :: stats)
  = updateAll (Hash.update h (pretty (mtime stat))) stats.
Proof. done. Qed.

Lemma updateAll_append stats : forall h,
  updateAll h stats = h +:+ digested stats.
Proof.
  unfold digested, Hash.createHash_md5.
  induction stats as [|stat stats IH]; intros h.
  - simpl. by rewrite append_nil_r.
  - rewrite !updateAll_cons.
    rewrite (IH (Hash.update h _)), (IH (Hash.update "" _)).
    unfold Hash.update. simpl. by rewrite append_assoc.
Qed.

Lemma digested_cons stat stats :
  digested (stat :: stats) = pretty (mtime stat) +:+ digested stats.
Proof.
  unfold digested at 1. by rewrite updateAll_cons, updateAll_append.
Qed.

Lemma digested_app pre post :
  digested (pre ++ post) = digested pre +:+ digested post.
Proof.
  induction pre as [|stat pre IH]; [done|].
  simpl. by rewrite !digested_cons, IH, append_assoc.
Qed.

(** The digested string is a function of the modification times. *)
Lemma digested_mtime old new :
  mtime <$> old = mtime <$> new -> digested old = digested new.
Proof.
  revert new. induction old as [|x old IH]; intros [|y new] Heq;
    simplify_eq/=; [done|].
  rewrite !digested_cons. f_equal; [by f_equal|by apply IH].
Qed.

(** ** The asset map *)

Section ServerFacts.

Variable getAssetDataFromName : string -> AssetData.
Variable path_join : string -> string -> string.
Variable path_basename : string -> string.
Variable path_dirname : string -> string.

Local Abbreviation parse := getAssetDataFromName.
Local Abbreviation build := (buildAssetMap getAssetDataFromName path_join).
Local Abbreviation add := (addAsset path_join).
Local Abbreviation offered := (variants getAssetDataFromName path_join).

Lemma buildAssetMap_snoc dir listing file :
  build dir (listing ++ [file])
  = add dir (build dir listing) (parse file, file).
Proof.
  unfold buildAssetMap.
  rewrite map_app. simpl.
  rewrite zip_with_app by by rewrite length_map.
  by rewrite fold_left_app.
Qed.

Lemma variants_snoc dir n listing file :
  offered dir n (listing ++ [file])
  = offered dir n listing ++
      if decide (assetName (parse file) = n)
      then [(resolution (parse file), path_join dir file)] else [].
Proof.
  unfold variants.
  rewrite filter_app, map_app. f_equal.
  rewrite filter_cons, filter_nil. by case_decide.
Qed.

Lemma recordOf_insertEntry l resolution file :
  {| scales :=
       splice (l.*1) (findInsertIndex resolution (l.*1) 0 (length (l.*1)))
         resolution;
     files :=
       splice (l.*2) (findInsertIndex resolution (l.*1) 0 (length (l.*1)))
         file |}
  = recordOf (insertEntry (resolution, file) l).
Proof.
  rewrite findInsertIndex_0.
  pose proof (splice_insertEntry resolution file (l.*1) (l.*2)) as H.
  rewrite zip_fst_snd in H. rewrite <- H by by rewrite !length_fmap.
  unfold recordOf. f_equal.
  - rewrite fst_zip; [done|]. rewrite !splice_length, !length_fmap. lia.
  - rewrite snd_zip; [done|]. rewrite !splice_length, !length_fmap. lia.
Qed.

(** The record of a name holds the variants of that name, inserted in
    listing order; names without variant have no record. *)
Lemma buildAssetMap_lookup dir listing n :
  build dir listing !! n
  = if decide (offered dir n listing = []) then None
    else Some (recordOf (insertAll (offered dir n listing) [])).
Proof.
  induction listing as [|file listing IH] using rev_ind; [done|].
  rewrite buildAssetMap_snoc, variants_snoc.
  unfold addAsset.
  destruct (decide (assetName (parse file) = n)) as [Heq|Hne].
  - rewrite Heq, lookup_insert_eq, IH, insertAll_snoc.
    rewrite (decide_False (P := _ ++ _ = []))
      by (intros [_ ?]%app_eq_nil; done).
    f_equal. case_decide as Hnil.
    + by rewrite Hnil.
    + apply recordOf_insertEntry.
  - rewrite lookup_insert_ne by done. by rewrite app_nil_r.
Qed.


Lemma lookup_record dir listing n record :
  build dir listing !! n = Some record ->
  offered dir n listing <> []
  /\ record = recordOf (insertAll (offered dir n listing) []).
Proof.
  rewrite buildAssetMap_lookup. case_decide; [done|]. by intros [= <-].
Qed.

(** Records are built with parallel, non-empty, ascending sequences. *)
Lemma record_invariant dir listing n record :
  build dir listing !! n = Some record ->
  length (scales record) = length (files record)
  /\ scales record <> []
  /\ StronglySorted Qcle (scales record).
Proof.
  intros [Hne ->]%lookup_record. simpl. split_and!.
  - by rewrite !length_fmap.
  - intros Hnil. apply fmap_nil_inv in Hnil. by apply (proj1 (insertAll_nil _)) in Hnil.
  - generalize (insertAll_sorted (offered dir n listing)).
    induction 1 as [|e l _ IH Hall]; simpl; constructor; [done|].
    apply Forall_fmap. eapply Forall_impl; [exact Hall|]. done.
Qed.

Lemma sorted_lookup_le (l : list number) i j x y :
  StronglySorted Qcle l -> i <= j ->
  l !! i = Some x -> l !! j = Some y -> (x <= y)%Qc.
Proof.
  intros Hsorted. revert i j.
  induction Hsorted as [|a l _ IH Hall]; intros i j Hij Hi Hj; [done|].
  destruct i as [|i], j as [|j]; simplify_eq/=.
  - apply Qcle_refl.
  - rewrite Forall_forall in Hall. apply Hall.
    by eapply list_elem_of_lookup_2.
  - lia.
  - apply (IH i j); [lia|done..].
Qed.

Lemma index_last {A} (a : list A) :
  index a (Z.of_nat (length a) - 1) = last a.
Proof.
  unfold index. rewrite last_lookup.
  destruct a as [|x a]; [done|].
  rewrite (proj2 (Z.ltb_ge _ _)) by (simpl; lia).
  f_equal. simpl. lia.
Qed.

(** What the selection loop finds. *)
Lemma firstAtLeast_spec scales requested : forall fuel i,
  i + fuel = length scales ->
  match firstAtLeast scales requested i fuel with
  | Some k =>
      i <= k
      /\ (exists s, scales !! k = Some s /\ (requested <= s)%Qc)
      /\ forall j s', i <= j < k -> scales !! j = Some s' -> (s' < requested)%Qc
  | None =>
      forall j s', i <= j -> scales !! j = Some s' -> (s' < requested)%Qc
  end.
Proof.
  induction fuel as [|fuel IH]; intros i Hlen; simpl.
  - intros j s' Hj Hs'. apply lookup_lt_Some in Hs'. lia.
  - destruct (scales !! i) as [s|] eqn:Hi;
      [|apply lookup_ge_None in Hi; lia].
    destruct (JS.ge s requested) eqn:Hge.
    + apply ge_spec in Hge. split_and!; [lia|eauto|intros; lia].
    + apply ge_false in Hge.
      specialize (IH (S i) ltac:(lia)).
      destruct (firstAtLeast scales requested (S i) fuel) as [k|].
      * destruct IH as (Hk & Hs & Hbelow). split_and!; [lia|done|].
        intros j s' Hj Hs'. destruct (decide (j = i)) as [->|]; [congruence|].
        apply (Hbelow j); [lia|done].
      * intros j s' Hj Hs'. destruct (decide (j = i)) as [->|]; [congruence|].
        apply (IH j); [lia|done].
Qed.

(** The file that [get] reads: the one at the first, and so the least,
    scale that reaches the request, else the one at the last, and so the
    greatest, scale. *)
Lemma selectFile_spec record requested :
  length (scales record) = length (files record) ->
  scales record <> [] ->
  StronglySorted Qcle (scales record) ->
  (exists i s file,
      scales record !! i = Some s /\ files record !! i = Some file
      /\ (requested <= s)%Qc
      /\ (forall j s', scales record !! j = Some s' -> (requested <= s')%Qc ->
            i <= j /\ (s <= s')%Qc)
      /\ selectFile record requested = Some file)
  \/ ((forall s, s ∈ scales record -> (s < requested)%Qc)
      /\ exists s file,
          last (scales record) = Some s /\ last (files record) = Some file
          /\ (forall s', s' ∈ scales record -> (s' <= s)%Qc)
          /\ selectFile record requested = Some file).
Proof.
  intros Hlen Hne Hsorted. unfold selectFile.
  pose proof (firstAtLeast_spec (scales record) requested
                (length (scales record)) 0 eq_refl) as Hloop.
  destruct (firstAtLeast _ _ _ _) as [i|].
  - left. destruct Hloop as (_ & (s & Hs & Hge) & Hbelow).
    destruct (lookup_lt_is_Some_2 (files record) i) as [file Hfile].
    { rewrite <- Hlen. by eapply lookup_lt_Some. }
    exists i, s, file. split_and!; [done..| |done].
    intros j s' Hj Hge'.
    assert (i <= j) as Hij.
    { destruct (decide (i <= j)); [done|].
      specialize (Hbelow j s' ltac:(lia) Hj). by apply Qclt_not_le in Hbelow. }
    split; [done|]. by eapply sorted_lookup_le.
  - right. split.
    { intros s [j Hj]%list_elem_of_lookup. apply (Hloop j); [lia|done]. }
    rewrite index_last.
    destruct (proj2 (last_is_Some (scales record)) Hne) as [s Hs].
    destruct (proj2 (last_is_Some (files record))) as [file Hfile].
    { intros Hnil. rewrite Hnil in Hlen. by destruct (scales record). }
    exists s, file. split_and!; [done..| |done].
    intros s' [j Hj]%list_elem_of_lookup.
    rewrite last_lookup in Hs.
    eapply sorted_lookup_le; [done| |done..].
    apply lookup_lt_Some in Hj. lia.
Qed.


Lemma offered_Permutation dir n listing listing' :
  listing ≡ₚ listing' -> offered dir n listing ≡ₚ offered dir n listing'.
Proof.
  intros Hperm. unfold variants. apply Permutation_map. by rewrite Hperm.
Qed.

Lemma entries_recordOf l : entries (recordOf l) = l.
Proof. apply zip_fst_snd. Qed.

(** C2. For a directory listing and any permutation of it,
    [buildAssetMap] holds a record for exactly the asset names the
    listing offers; in that record [scales] and [files] have the same
    length, [scales] is in ascending order and is the same whatever the
    order of the listing, the pairs of scale and file are those of the
    listing, and the files of one resolution keep the order in which
    they were listed: the first seen comes first. *)
Theorem buildAssetMap_ordering dir listing listing' n :
  listing ≡ₚ listing' ->
  (build dir listing' !! n = None <-> offered dir n listing' = [])
  /\ forall record, build dir listing' !! n = Some record ->
       length (scales record) = length (files record)
       /\ Sorted Qcle (scales record)
       /\ entries record ≡ₚ offered dir n listing
       /\ (forall s,
             atScale s (entries record) = atScale s (offered dir n listing'))
       /\ exists record0,
            build dir listing !! n = Some record0
            /\ scales record0 = scales record.
Proof.
  intros Hperm. split.
  { rewrite buildAssetMap_lookup. by case_decide. }
  intros record Hrecord.
  destruct (record_invariant _ _ _ _ Hrecord) as (Hlen & _ & Hsorted).
  destruct (lookup_record _ _ _ _ Hrecord) as [Hne ->].
  split_and!; [done|by apply StronglySorted_Sorted|..].
  - by rewrite entries_recordOf, insertAll_Permutation, offered_Permutation.
  - intros s. by rewrite entries_recordOf, insertAll_atScale.
  - exists (recordOf (insertAll (offered dir n listing) [])). split.
    + rewrite buildAssetMap_lookup, decide_False; [done|].
      intros Hnil. apply Hne, Permutation_nil.
      by rewrite <- offered_Permutation, Hnil.
    + simpl. apply (StronglySorted_unique Qcle).
      * apply (record_invariant dir listing n (recordOf _)).
        rewrite buildAssetMap_lookup, decide_False; [done|].
        intros Hnil. apply Hne, Permutation_nil.
        by rewrite <- offered_Permutation, Hnil.
      * done.
      * apply fmap_Permutation.
        by rewrite !insertAll_Permutation, offered_Permutation.
Qed.

(** C9. A record of the map that [buildAssetMap] returns has at least
    one entry: [scales] and [files] are non-empty and of equal length, so
    that [record.files[record.files.length - 1]] is an element of
    [files], and whatever the requested resolution, the element that
    [get] selects is one of the files of the record. *)
Theorem record_nonempty dir listing n record :
  build dir listing !! n = Some record ->
  scales record <> [] /\ files record <> []
  /\ length (scales record) = length (files record)
  /\ (exists file,
        index (files record) (Z.of_nat (length (files record)) - 1)
        = Some file /\ file ∈ files record)
  /\ forall requested, exists file,
       selectFile record requested = Some file /\ file ∈ files record.
Proof.
  intros Hrecord.
  destruct (record_invariant _ _ _ _ Hrecord) as (Hlen & Hne & Hsorted).
  assert (files record <> []) as Hfiles.
  { intros Hnil. rewrite Hnil in Hlen. by destruct (scales record). }
  split_and!; [done..| |].
  - rewrite index_last.
    destruct (proj2 (last_is_Some (files record)) Hfiles) as [file Hfile].
    exists file. split; [done|].
    rewrite last_lookup in Hfile. by eapply list_elem_of_lookup_2.
  - intros requested.
    destruct (selectFile_spec record requested Hlen Hne Hsorted)
      as [(i & s & file & _ & Hfile & _ & _ & Hsel)
         |(_ & s & file & _ & Hfile & _ & Hsel)];
      exists file; (split; [done|]).
    + by eapply list_elem_of_lookup_2.
    + rewrite last_lookup in Hfile. by eapply list_elem_of_lookup_2.
Qed.

(** ** Locating the directory *)

Local Abbreviation findRoot_ := (findRoot path_join).
Local Abbreviation probe_ := (probe path_join).

(** How a race for one fulfilment ends. *)
Lemma race1_spec {A} (ps : list (Result A)) : forall order thrown,
  match Bluebird.race1 ps order thrown with
  | Fulfilled vs =>
      exists before i after v,
        order = before ++ i :: after
        /\ ps !! i = Some (Fulfilled v) /\ vs = [v]
        /\ forall j v', j ∈ before -> ps !! j <> Some (Fulfilled v')
  | Rejected e =>
      e = AggregateError (thrown ++ reasons ps order)
      /\ forall j v', j ∈ order -> ps !! j <> Some (Fulfilled v')
  end.
Proof.
  induction order as [|i order IH]; intros thrown; simpl.
  - rewrite app_nil_r. split; [done|]. intros j v' Hj. by apply elem_of_nil in Hj.
  - destruct (ps !! i) as [[v|e]|] eqn:Hi.
    + exists [], i, order, v. split_and!; [done..|].
      intros j v' Hj. by apply elem_of_nil in Hj.
    + specialize (IH (thrown ++ [e])).
      destruct (Bluebird.race1 ps order (thrown ++ [e])) as [vs|e'].
      * destruct IH as (before & k & after & v & -> & Hk & -> & Hbefore).
        exists (i :: before), k, after, v. split_and!; [done..|].
        intros j v' [->|Hj]%elem_of_cons; [congruence|by apply Hbefore].
      * destruct IH as [-> Hnone]. rewrite <- app_assoc. split; [done|].
        intros j v' [->|Hj]%elem_of_cons; [congruence|by apply Hnone].
    + specialize (IH thrown).
      destruct (Bluebird.race1 ps order thrown) as [vs|e'].
      * destruct IH as (before & k & after & v & -> & Hk & -> & Hbefore).
        exists (i :: before), k, after, v. split_and!; [done..|].
        intros j v' [->|Hj]%elem_of_cons; [congruence|by apply Hbefore].
      * destruct IH as [-> Hnone]. split; [done|].
        intros j v' [->|Hj]%elem_of_cons; [congruence|by apply Hnone].
Qed.

(** A probe is fulfilled exactly for a directory, and then with its path. *)
Lemma probe_Fulfilled fs dir root located :
  probe_ fs dir root = Fulfilled located ->
  isDir fs (path_join root dir) /\ _path located = path_join root dir.
Proof.
  unfold probe, isDir.
  destruct (lstat fs (path_join root dir)) as [st|]; [|done]. simpl.
  destruct (isDirectory st) eqn:Hdir; [|done]. simpl.
  intros [= <-]. eauto.
Qed.

Lemma probe_isDir fs dir root :
  isDir fs (path_join root dir) ->
  exists located, probe_ fs dir root = Fulfilled located.
Proof.
  unfold probe. intros (st & -> & Hdir). simpl. rewrite Hdir. eauto.
Qed.

Lemma probe_Rejected fs dir root :
  ~ isDir fs (path_join root dir) ->
  exists e, probe_ fs dir root = Rejected e.
Proof.
  unfold probe, isDir. intros Hno.
  destruct (lstat fs (path_join root dir)) as [st|e]; simpl; [|eauto].
  destruct (isDirectory st) eqn:Hdir; simpl; [|eauto].
  destruct Hno. eauto.
Qed.

Lemma isDir_dec fs path : isDir fs path \/ ~ isDir fs path.
Proof.
  unfold isDir. destruct (lstat fs path) as [st|e].
  - destruct (isDirectory st) eqn:Hdir; [left; eauto|].
    right. intros (st' & [= <-] & ?). congruence.
  - right. by intros (st' & ? & ?).
Qed.

(** A prefix of the order of the roots is the roots before its end. *)
Lemma seq_prefix n before i after :
  seq 0 n = before ++ i :: after ->
  i = length before /\ forall j, j < i -> j ∈ before.
Proof.
  intros Hseq.
  assert (seq 0 n !! length before = Some i) as Hi
    by (rewrite Hseq; apply list_lookup_middle; done).
  apply lookup_seq in Hi as [Hi Hlt]. simpl in Hi. subst i.
  split; [done|]. intros j Hj.
  apply (list_elem_of_lookup_2 _ j).
  assert (seq 0 n !! j = Some j) as Hj'
    by (apply lookup_seq; split; [done|lia]).
  rewrite Hseq, lookup_app_l in Hj' by done. done.
Qed.

(** What [findRoot] answers when some root holds the directory. *)
Lemma findRoot_Fulfilled fs t roots dir :
  probes t ≡ₚ seq 0 (length roots) ->
  (exists root, root ∈ roots /\ isDir fs (path_join root dir)) ->
  exists before i after root,
    probes t = before ++ i :: after
    /\ roots !! i = Some root
    /\ isDir fs (path_join root dir)
    /\ (forall j root', j ∈ before -> roots !! j = Some root' ->
          ~ isDir fs (path_join root' dir))
    /\ findRoot_ fs t roots dir = Fulfilled (path_join root dir).
Proof.
  intros Hperm (root0 & [i0 Hi0]%list_elem_of_lookup & Hdir0).
  unfold findRoot, Bluebird.some1.
  pose proof (race1_spec (List.map (probe_ fs dir) roots) (probes t) [])
    as Hrace.
  destruct roots as [|r roots']; [done|].
  set (roots := r :: roots') in *.
  change (List.map (probe_ fs dir) roots) with (probe_ fs dir <$> roots) in *.
  destruct (Bluebird.race1 _ _ _) as [vs|e].
  - destruct Hrace as (before & i & after & v & Horder & Hi & -> & Hbefore).
    rewrite list_lookup_fmap in Hi.
    destruct (roots !! i) as [root|] eqn:Hroot; [|done].
    simpl in Hi. injection Hi as Hi.
    apply probe_Fulfilled in Hi as [Hdir Hpath].
    exists before, i, after, root. simpl. rewrite Hpath.
    split_and!; [done..| |done].
    intros j root' Hj Hroot' [located Hprobe]%probe_isDir.
    apply (Hbefore j located Hj).
    by rewrite list_lookup_fmap, Hroot'; simpl; rewrite Hprobe.
  - destruct Hrace as [_ Hnone].
    destruct (probe_isDir _ _ _ Hdir0) as [located Hprobe].
    destruct (Hnone i0 located).
    + rewrite Hperm. apply elem_of_seq. apply lookup_lt_Some in Hi0. lia.
    + by rewrite list_lookup_fmap, Hi0; simpl; rewrite Hprobe.
Qed.

(** What [findRoot] answers when no root holds the directory. *)
Lemma findRoot_Rejected fs t roots dir :
  (forall root, root ∈ roots -> ~ isDir fs (path_join root dir)) ->
  (roots = []
   /\ findRoot_ fs t roots dir
      = Rejected (RangeError
          "Input array must contain at least 1 items but contains only 0 items"))
  \/ (roots <> []
      /\ findRoot_ fs t roots dir
         = Rejected (AggregateError
             (reasons (List.map (probe_ fs dir) roots) (probes t)))).
Proof.
  intros Hno. unfold findRoot, Bluebird.some1.
  pose proof (race1_spec (List.map (probe_ fs dir) roots) (probes t) [])
    as Hrace.
  destruct roots as [|r roots']; [by left|right].
  split; [done|].
  set (roots := r :: roots') in *.
  change (List.map (probe_ fs dir) roots) with (probe_ fs dir <$> roots) in *.
  destruct (Bluebird.race1 _ _ _) as [vs|e].
  - destruct Hrace as (before & i & after & v & Horder & Hi & -> & Hbefore).
    rewrite list_lookup_fmap in Hi.
    destruct (roots !! i) as [root|] eqn:Hroot; [|done].
    simpl in Hi. injection Hi as Hi.
    apply probe_Fulfilled in Hi as [Hdir _].
    destruct (Hno root); [by eapply list_elem_of_lookup_2|done].
  - by destruct Hrace as [-> _].
Qed.

Lemma reasons_complete {A} (ps : list (Result A)) order i e :
  i ∈ order -> ps !! i = Some (Rejected e) -> e ∈ reasons ps order.
Proof.
  intros Hi He. unfold reasons. apply list_elem_of_omap.
  exists i. by rewrite He.
Qed.

Lemma findRoot_no_SystemError fs t roots dir code path :
  findRoot_ fs t roots dir <> Rejected (SystemError code path).
Proof.
  unfold findRoot, Bluebird.some1.
  pose proof (race1_spec (List.map (probe_ fs dir) roots) (probes t) [])
    as Hrace.
  destruct roots as [|r roots']; [done|].
  destruct (Bluebird.race1 _ _ _) as [vs|e]; simpl.
  - by destruct Hrace as (before & i & after & v & _ & _ & -> & _).
  - by destruct Hrace as [-> _].
Qed.

(** C3, as the code has it.  When the probes settle in the order
    [probes t] and some root holds the directory, [findRoot] answers with
    the path under the root whose probe is the first, in settling order,
    to find a directory: every probe settled before it failed.  It is the
    first such root in the order of the roots when the probes settle in
    that order. *)
Theorem findRoot_first_settled fs t roots dir :
  probes t ≡ₚ seq 0 (length roots) ->
  (exists root, root ∈ roots /\ isDir fs (path_join root dir)) ->
  exists before i after root,
    probes t = before ++ i :: after
    /\ roots !! i = Some root
    /\ isDir fs (path_join root dir)
    /\ (forall j root', j ∈ before -> roots !! j = Some root' ->
          ~ isDir fs (path_join root' dir))
    /\ findRoot_ fs t roots dir = Fulfilled (path_join root dir)
    /\ (probes t = seq 0 (length roots) ->
        forall j root', j < i -> roots !! j = Some root' ->
          ~ isDir fs (path_join root' dir)).
Proof.
  intros Hperm Hsome.
  destruct (findRoot_Fulfilled fs t roots dir Hperm Hsome)
    as (before & i & after & root & Horder & Hroot & Hdir & Hbefore & Hfound).
  exists before, i, after, root. split_and!; [done..|].
  intros Hseq j root' Hj. apply Hbefore.
  rewrite Horder in Hseq. symmetry in Hseq.
  by apply seq_prefix in Hseq as [_ Hin]; apply Hin.
Qed.

(** C4, as the code has it.  A probe that fails is passed over whatever
    the reason of its failure, be it a missing path, a path that is not a
    directory or a refused permission: when some root holds the
    directory, [findRoot] answers with the path under such a root; when
    none does, it is rejected with Bluebird's aggregate of the reasons of
    all probes, in settling order.  The error of a probe never comes out
    of [findRoot] as it is. *)
Theorem findRoot_passes_over_failures fs t roots dir :
  probes t ≡ₚ seq 0 (length roots) ->
  roots <> [] ->
  ((exists root, root ∈ roots /\ isDir fs (path_join root dir)) ->
   exists root,
     root ∈ roots /\ isDir fs (path_join root dir)
     /\ findRoot_ fs t roots dir = Fulfilled (path_join root dir))
  /\ ((forall root, root ∈ roots -> ~ isDir fs (path_join root dir)) ->
      findRoot_ fs t roots dir
      = Rejected (AggregateError
          (reasons (List.map (probe_ fs dir) roots) (probes t)))
      /\ forall root e,
           root ∈ roots -> probe_ fs dir root = Rejected e ->
           e ∈ reasons (List.map (probe_ fs dir) roots) (probes t))
  /\ forall code path,
       findRoot_ fs t roots dir <> Rejected (SystemError code path).
Proof.
  intros Hperm Hne. split_and!.
  - intros Hsome.
    destruct (findRoot_Fulfilled fs t roots dir Hperm Hsome)
      as (before & i & after & root & _ & Hroot & Hdir & _ & Hfound).
    exists root. split_and!; [|done..]. by eapply list_elem_of_lookup_2.
  - intros Hnone.
    destruct (findRoot_Rejected fs t roots dir Hnone) as [[? _]|[_ Hrej]];
      [done|].
    split; [done|].
    intros root e [i Hi]%list_elem_of_lookup Hprobe.
    apply (reasons_complete _ _ i).
    + rewrite Hperm. apply elem_of_seq. apply lookup_lt_Some in Hi. lia.
    + change (List.map (probe_ fs dir) roots) with (probe_ fs dir <$> roots).
      by rewrite list_lookup_fmap, Hi; simpl; rewrite Hprobe.
  - intros code path. apply findRoot_no_SystemError.
Qed.

(** ** Selection *)

Local Abbreviation record_of := (_getAssetRecord getAssetDataFromName path_join
  path_basename path_dirname).
Local Abbreviation get_ := (get getAssetDataFromName path_join path_basename
  path_dirname).
Local Abbreviation getAssetData_ := (getAssetData getAssetDataFromName path_join
  path_basename path_dirname).

(** The records that reach [get] come out of the asset map. *)
Lemma _getAssetRecord_built this fs t assetPath record :
  record_of this fs t assetPath = Fulfilled record ->
  exists dir listing,
    findRoot_ fs t (_roots this) (path_dirname assetPath) = Fulfilled dir
    /\ readDir fs dir = Fulfilled listing
    /\ build dir listing !! assetName (parse (path_basename assetPath))
       = Some record.
Proof.
  unfold _getAssetRecord. intros H.
  destruct (findRoot_ _ _ _ _) as [dir|] eqn:Hdir; [|done]. simpl in H.
  destruct (readDir fs dir) as [listing|] eqn:Hlisting; [|done]. simpl in H.
  destruct (build dir listing !! _) as [record'|] eqn:Hlookup; [|done].
  exists dir, listing. split_and!; [done..|]. congruence.
Qed.

(** C1. For a record that [get] obtains, whose scales are in ascending
    order, and the resolution requested by the path: either some scale
    reaches the request, and [get] returns what [readFile] gives for the
    file at the first such scale, which is also the least such scale; or
    every scale is below the request, and [get] returns what [readFile]
    gives for the last file, the one at the greatest scale.  In both
    cases the file is there: the selection does not fail. *)
Theorem get_nearest_match this fs t assetPath record :
  record_of this fs t assetPath = Fulfilled record ->
  Sorted Qcle (scales record)
  /\ ((exists i s file,
         scales record !! i = Some s /\ files record !! i = Some file
         /\ (resolution (parse assetPath) <= s)%Qc
         /\ (forall j s',
               scales record !! j = Some s' ->
               (resolution (parse assetPath) <= s')%Qc ->
               i <= j /\ (s <= s')%Qc)
         /\ get_ this fs t assetPath = readFile fs file)
      \/ ((forall s, s ∈ scales record -> (s < resolution (parse assetPath))%Qc)
          /\ exists s file,
               last (scales record) = Some s
               /\ last (files record) = Some file
               /\ (forall s', s' ∈ scales record -> (s' <= s)%Qc)
               /\ get_ this fs t assetPath = readFile fs file)).
Proof.
  intros Hrecord.
  destruct (_getAssetRecord_built _ _ _ _ _ Hrecord)
    as (dir & listing & _ & _ & Hbuilt).
  destruct (record_invariant _ _ _ _ Hbuilt) as (Hlen & Hne & Hsorted).
  split; [by apply StronglySorted_Sorted|].
  unfold get. rewrite Hrecord. simpl.
  destruct (selectFile_spec record (resolution (parse assetPath))
              Hlen Hne Hsorted)
    as [(i & s & file & Hs & Hfile & Hge & Hfirst & Hsel)
       |(Hbelow & s & file & Hs & Hfile & Hmax & Hsel)].
  - left. exists i, s, file. by rewrite Hsel.
  - right. split; [done|]. exists s, file. by rewrite Hsel.
Qed.

(** ** Names without record *)

(** C7. When the directory of the request is found under some root and
    listed, and the asset map of the listing has no record for the name
    of the request, the resolution, and with it [get] and
    [getAssetData], is rejected with the error ["Asset not found"].  When
    no root holds the directory of a request, the resolution is rejected
    with another error, the one that [findRoot] gives. *)
Theorem asset_not_found this fs t assetPath dir listing :
  findRoot_ fs t (_roots this) (path_dirname assetPath) = Fulfilled dir ->
  readDir fs dir = Fulfilled listing ->
  build dir listing !! assetName (parse (path_basename assetPath)) = None ->
  record_of this fs t assetPath = Rejected (Error "Asset not found")
  /\ get_ this fs t assetPath = Rejected (Error "Asset not found")
  /\ getAssetData_ this fs t assetPath = Rejected (Error "Asset not found")
  /\ forall this' fs' t' assetPath',
       (forall root, root ∈ _roots this' ->
          ~ isDir fs' (path_join root (path_dirname assetPath'))) ->
       exists e,
         findRoot_ fs' t' (_roots this') (path_dirname assetPath') = Rejected e
         /\ record_of this' fs' t' assetPath' = Rejected e
         /\ get_ this' fs' t' assetPath' = Rejected e
         /\ getAssetData_ this' fs' t' assetPath' = Rejected e
         /\ e <> Error "Asset not found".
Proof.
  intros Hdir Hlisting Hnone.
  assert (record_of this fs t assetPath = Rejected (Error "Asset not found"))
    as Hrecord.
  { unfold _getAssetRecord. rewrite Hdir. simpl. rewrite Hlisting. simpl.
    by rewrite Hnone. }
  split_and!; [done| | |].
  - unfold get. by rewrite Hrecord.
  - unfold getAssetData. by rewrite Hrecord.
  - intros this' fs' t' assetPath' Hno.
    assert (exists e,
      findRoot_ fs' t' (_roots this') (path_dirname assetPath') = Rejected e
      /\ e <> Error "Asset not found") as (e & He & Hdistinct).
    { destruct (findRoot_Rejected fs' t' _ _ Hno) as [[_ ->]|[_ ->]]; eauto. }
    assert (record_of this' fs' t' assetPath' = Rejected e) as Hrecord'.
    { unfold _getAssetRecord. by rewrite He. }
    exists e. split_and!; [done..| | |done].
    + unfold get. by rewrite Hrecord'.
    + unfold getAssetData. by rewrite Hrecord'.
Qed.

(** ** The descriptor *)



(** Variants of distinct scales are listed in the same order scale by
    scale, whatever the order of the listing. *)
Lemma distinct_scales_atScale (l l' : list (number * string)) s :
  NoDup (l.*1) -> l ≡ₚ l' -> atScale s l = atScale s l'.
Proof.
  intros Hnodup Hperm.
  assert (forall k : list (number * string),
            NoDup (k.*1) -> length (atScale s k) <= 1) as Hshort.
  { induction k as [|e k IH]; [simpl; lia|].
    rewrite fmap_cons, NoDup_cons, atScale_cons. intros [Hnotin Hk].
    case_decide as He; [|by apply IH].
    rewrite atScale_none; [simpl; lia|].
    apply Forall_forall. intros e' He' Heq. apply Hnotin.
    rewrite He, <- Heq. by apply list_elem_of_fmap_2. }
  assert (atScale s l ≡ₚ atScale s l') as Hfilter
    by (unfold atScale; by rewrite Hperm).
  pose proof (Hshort l Hnodup) as Hlen.
  destruct (atScale s l) as [|e [|e' k]]; [| |simpl in Hlen; lia].
  - by apply Permutation_nil in Hfilter.
  - by apply Permutation_singleton_l in Hfilter.
Qed.


(** C8, as the code has it.  For an asset that is resolved, and the files
    of whose record can be looked at, [getAssetData] returns a descriptor
    with the name parsed from the path, the scales of the record, the
    fingerprint of the record, and the type ["png"], whatever the
    extension of the path. *)
Theorem getAssetData_descriptor this fs t assetPath record stats_ :
  record_of this fs t assetPath = Fulfilled record ->
  Bluebird.all (List.map (lstat fs) (files record)) (stats t)
  = Fulfilled stats_ ->
  getAssetData_ this fs t assetPath
  = Fulfilled {| Data.name := name (parse assetPath);
                 Data.type := "png";
                 Data.scales := scales record;
                 Data.hash := fingerprint stats_ |}.
Proof.
  intros Hrecord Hstats. unfold getAssetData.
  rewrite Hrecord. simpl. rewrite Hstats. done.
Qed.

(** C10. Two servers made with the same roots and any two lists of
    extensions answer every request alike, with [get] and with
    [getAssetData]; and the asset map leaves no entry of the listing
    out: whatever its extension, a listed file is among the files of the
    record of its name. *)
Theorem assetExts_not_consulted roots exts1 exts2 fs t assetPath :
  get_ (new_AssetServer {| projectRoots := roots; assetExts := exts1 |})
    fs t assetPath
  = get_ (new_AssetServer {| projectRoots := roots; assetExts := exts2 |})
      fs t assetPath
  /\ getAssetData_
       (new_AssetServer {| projectRoots := roots; assetExts := exts1 |})
       fs t assetPath
     = getAssetData_
         (new_AssetServer {| projectRoots := roots; assetExts := exts2 |})
         fs t assetPath
  /\ forall dir listing file,
       file ∈ listing ->
       exists record,
         build dir listing !! assetName (parse file) = Some record
         /\ path_join dir file ∈ files record.
Proof.
  split_and!; [done..|].
  intros dir listing file Hfile.
  assert ((resolution (parse file), path_join dir file)
          ∈ offered dir (assetName (parse file)) listing) as Hoffered.
  { unfold variants.
    change (?e ∈ List.map ?f ?l) with (e ∈ f <$> l).
    apply (list_elem_of_fmap_2
      (fun file => (resolution (parse file), path_join dir file))).
    by apply list_elem_of_filter. }
  rewrite buildAssetMap_lookup. rewrite decide_False.
  - eexists. split; [done|]. simpl.
    rewrite <- insertAll_Permutation in Hoffered.
    by apply (list_elem_of_fmap_2 snd) in Hoffered.
  - intros Hnil. rewrite Hnil in Hoffered. by apply elem_of_nil in Hoffered.
Qed.

(** ** Further properties of [findRoot] *)

(** X1. Whatever the order in which the probes settle, a path that
    [findRoot] answers with is the path of the directory under one of the
    roots, and it is a directory. *)
Theorem findRoot_sound fs t roots dir path :
  findRoot_ fs t roots dir = Fulfilled path ->
  exists root,
    root ∈ roots /\ path = path_join root dir /\ isDir fs path.
Proof.
  unfold findRoot, Bluebird.some1.
  pose proof (race1_spec (List.map (probe_ fs dir) roots) (probes t) [])
    as Hrace.
  destruct roots as [|r roots']; [done|].
  set (roots := r :: roots') in *.
  change (List.map (probe_ fs dir) roots) with (probe_ fs dir <$> roots) in *.
  destruct (Bluebird.race1 _ _ _) as [vs|e]; [|done].
  destruct Hrace as (before & i & after & v & _ & Hi & -> & _).
  rewrite list_lookup_fmap in Hi.
  destruct (roots !! i) as [root|] eqn:Hroot; [|done].
  simpl in Hi. injection Hi as Hi.
  apply probe_Fulfilled in Hi as [Hdir Hpath].
  simpl. intros [= <-]. exists root. rewrite Hpath.
  split_and!; [by eapply list_elem_of_lookup_2|done..].
Qed.

(** X2. When the directory exists under one root only, or under several
    roots that give the same path, [findRoot] answers with that path in
    whatever order the probes settle. *)
Theorem findRoot_unique_match fs t roots dir root :
  probes t ≡ₚ seq 0 (length roots) ->
  root ∈ roots ->
  isDir fs (path_join root dir) ->
  (forall root',
     root' ∈ roots -> isDir fs (path_join root' dir) ->
     path_join root' dir = path_join root dir) ->
  findRoot_ fs t roots dir = Fulfilled (path_join root dir).
Proof.
  intros Hperm Hroot Hdir Hunique.
  destruct (findRoot_Fulfilled fs t roots dir Hperm)
    as (before & i & after & root' & _ & Hroot' & Hdir' & _ & Hfound);
    [by eauto|].
  rewrite Hfound. f_equal. apply Hunique; [|done].
  by eapply list_elem_of_lookup_2.
Qed.

(** ** Further properties of [buildAssetMap] *)

Lemma offered_filter dir n listing :
  offered dir n (filter (fun file => assetName (parse file) = n) listing)
  = offered dir n listing.
Proof.
  unfold variants. f_equal.
  induction listing as [|file listing IH]; [done|].
  rewrite !filter_cons. case_decide as Hn; [|done].
  rewrite filter_cons, decide_True by done. by rewrite IH.
Qed.

(** X3. The record of a name depends on the files of that name only:
    two listings that hold the same files of the name, in the same
    order, give the same record for it, whatever other files they
    hold. *)
Theorem buildAssetMap_other_names dir listing listing' n :
  filter (fun file => assetName (parse file) = n) listing
  = filter (fun file => assetName (parse file) = n) listing' ->
  build dir listing !! n = build dir listing' !! n.
Proof.
  intros Hsame. rewrite !buildAssetMap_lookup.
  by rewrite <- (offered_filter dir n listing), Hsame, offered_filter.
Qed.

Lemma offered_scales_NoDup dir n listing :
  NoDup ((fun file => (assetName (parse file), resolution (parse file)))
           <$> listing) ->
  NoDup ((offered dir n listing).*1).
Proof.
  unfold variants.
  induction listing as [|file listing IH]; [constructor|].
  rewrite fmap_cons, NoDup_cons. intros [Hnotin Hrest].
  rewrite filter_cons. case_decide as Hn; [|by apply IH].
  simpl. apply NoDup_cons. split; [|by apply IH].
  intros Hin. apply Hnotin.
  apply list_elem_of_fmap in Hin as ([res path] & Hres & Hin). simpl in Hres.
  change (?e ∈ List.map ?f ?l) with (e ∈ f <$> l) in Hin.
  apply list_elem_of_fmap in Hin as (file' & [= -> ->] & Hfile').
  apply list_elem_of_filter in Hfile' as [Hn' Hfile'].
  apply list_elem_of_fmap. exists file'. split; [|done].
  by rewrite Hn, Hn', Hres.
Qed.

(** X4. When no two listed files have both the same asset name and the
    same resolution, the asset map does not depend on the order of the
    listing. *)
Theorem buildAssetMap_order_independent dir listing listing' :
  listing ≡ₚ listing' ->
  NoDup ((fun file => (assetName (parse file), resolution (parse file)))
           <$> listing) ->
  build dir listing' = build dir listing.
Proof.
  intros Hperm Hnodup. apply map_eq. intros n.
  rewrite !buildAssetMap_lookup.
  pose proof (offered_Permutation dir n _ _ Hperm) as Hoffered.
  assert (insertAll (offered dir n listing') []
          = insertAll (offered dir n listing) []) as ->.
  { apply sorted_atScale_eq; [apply insertAll_sorted..|].
    intros s. rewrite !insertAll_atScale. symmetry.
    apply distinct_scales_atScale; [|done].
    by apply offered_scales_NoDup. }
  destruct (decide (offered dir n listing' = [])) as [Hnil'|Hne'],
    (decide (offered dir n listing = [])) as [Hnil|Hne]; [done| | |done].
  - destruct Hne. apply Permutation_nil. by rewrite Hoffered, Hnil'.
  - destruct Hne'. apply Permutation_nil. by rewrite <- Hoffered, Hnil.
Qed.

(** ** Further properties of the selection *)

(** The file selected from a record of the map is one of its files. *)
Lemma record_nonempty_files dir listing n record requested :
  build dir listing !! n = Some record ->
  exists file,
    selectFile record requested = Some file /\ file ∈ files record.
Proof.
  intros Hrecord.
  destruct (record_invariant _ _ _ _ Hrecord) as (Hlen & Hne & Hsorted).
  destruct (selectFile_spec record requested Hlen Hne Hsorted)
    as [(i & s & file & _ & Hfile & _ & _ & Hsel)
       |(_ & s & file & _ & Hfile & _ & Hsel)];
    exists file; (split; [done|]).
  - by eapply list_elem_of_lookup_2.
  - rewrite last_lookup in Hfile. by eapply list_elem_of_lookup_2.
Qed.

Lemma atScale_offered dir n s listing :
  atScale s (offered dir n listing)
  = (fun file => (resolution (parse file), path_join dir file))
      <$> filter (fun file => assetName (parse file) = n
                              /\ resolution (parse file) = s) listing.
Proof.
  unfold variants.
  induction listing as [|file listing IH]; [done|].
  rewrite !filter_cons.
  destruct (decide (assetName (parse file) = n)) as [Hn|Hn].
  - simpl. rewrite atScale_cons. simpl.
    destruct (decide (resolution (parse file) = s)) as [Hs|Hs].
    + rewrite decide_True by done. rewrite fmap_cons. by f_equal.
    + rewrite decide_False by (by intros [_ ?]). done.
  - rewrite decide_False by (by intros [? _]). done.
Qed.

(** In sorted variants, the first that reaches a scale that is on offer
    is the first of that scale. *)
Lemma first_atScale (l : list (number * string)) s e rest : forall k e',
  StronglySorted ascending l ->
  atScale s l = e :: rest ->
  l !! k = Some e' -> (s <= e'.1)%Qc ->
  (forall j e'', j < k -> l !! j = Some e'' -> (e''.1 < s)%Qc) ->
  e' = e.
Proof.
  induction l as [|x l IH]; intros k e' Hsorted Hat Hk Hge Hbelow; [done|].
  apply StronglySorted_inv in Hsorted as [Hsorted Hall].
  destruct k as [|k]; simplify_eq/=.
  - destruct (Qcle_lt_or_eq _ _ Hge) as [Hlt|Heq].
    + by rewrite (atScale_above s e' l) in Hat.
    + rewrite atScale_cons, decide_True in Hat by done. by simplify_eq.
  - pose proof (Hbelow 0 x ltac:(lia) eq_refl) as Hx.
    rewrite atScale_cons, decide_False in Hat
      by (intros Heq; rewrite Heq in Hx; by apply Qclt_not_eq in Hx).
    apply (IH k e' Hsorted Hat Hk Hge).
    intros j e'' Hj He''. apply (Hbelow (S j)); [lia|done].
Qed.

(** X5. A request is served by the first listed file that has the asset
    name and the resolution of the request, when there is one: in
    particular, a listed file is what a request for its own name and
    resolution returns, unless a file of the same name and resolution is
    listed before it. *)
Theorem get_exact_match this fs t assetPath dir listing file rest :
  findRoot_ fs t (_roots this) (path_dirname assetPath) = Fulfilled dir ->
  readDir fs dir = Fulfilled listing ->
  filter (fun f =>
            assetName (parse f) = assetName (parse (path_basename assetPath))
            /\ resolution (parse f) = resolution (parse assetPath)) listing
  = file :: rest ->
  get_ this fs t assetPath = readFile fs (path_join dir file).
Proof.
  intros Hdir Hlisting Hfirst.
  set (n := assetName (parse (path_basename assetPath))) in *.
  set (requested := resolution (parse assetPath)) in *.
  set (l := insertAll (offered dir n listing) []).
  assert (atScale requested l
          = (resolution (parse file), path_join dir file)
            :: ((fun f => (resolution (parse f), path_join dir f)) <$> rest))
    as Hat.
  { unfold l. by rewrite insertAll_atScale, atScale_offered, Hfirst. }
  assert (build dir listing !! n = Some (recordOf l)) as Hbuilt.
  { rewrite buildAssetMap_lookup, decide_False; [done|].
    intros Hnil. unfold l in Hat. rewrite Hnil in Hat. done. }
  assert (record_of this fs t assetPath = Fulfilled (recordOf l)) as Hrecord.
  { unfold _getAssetRecord. rewrite Hdir. simpl. rewrite Hlisting. simpl.
    fold n. by rewrite Hbuilt. }
  unfold get. rewrite Hrecord. simpl. fold requested.
  assert (StronglySorted ascending l) as Hsorted by apply insertAll_sorted.
  unfold selectFile. simpl.
  pose proof (firstAtLeast_spec (l.*1) requested (length (l.*1)) 0 eq_refl)
    as Hloop.
  destruct (firstAtLeast _ _ _ _) as [k|].
  - destruct Hloop as (_ & (s & Hs & Hge) & Hbelow).
    rewrite list_lookup_fmap in Hs.
    destruct (l !! k) as [e'|] eqn:Hk; [|done]. simpl in Hs.
    injection Hs as <-.
    assert (e' = (resolution (parse file), path_join dir file)) as ->.
    { eapply (first_atScale l requested _ _ k e'); [done..|].
      intros j e'' Hj He''. apply (Hbelow j); [lia|].
      by rewrite list_lookup_fmap, He''. }
    by rewrite list_lookup_fmap, Hk.
  - assert ((resolution (parse file), path_join dir file) ∈ l) as Hin.
    { apply (list_elem_of_filter (fun e => e.1 = requested) l).
      fold (atScale requested l). rewrite Hat. by left. }
    apply list_elem_of_lookup in Hin as [j Hj].
    assert (resolution (parse file) = requested) as Hres.
    { assert ((resolution (parse file), path_join dir file)
              ∈ atScale requested l) as Hin' by (rewrite Hat; by left).
      by apply list_elem_of_filter in Hin' as [? _]. }
    specialize (Hloop j (resolution (parse file)) ltac:(lia)).
    rewrite list_lookup_fmap, Hj in Hloop. specialize (Hloop eq_refl).
    rewrite Hres in Hloop. by apply Qclt_not_eq in Hloop.
Qed.

(** X6. The selection is monotone: of two requests for one record, the
    one for the greater resolution is served from a place that is not
    before the place the other is served from, and so at a scale that is
    not less. *)
Theorem selectFile_monotone dir listing n record requested requested' :
  build dir listing !! n = Some record ->
  (requested <= requested')%Qc ->
  exists i j s s',
    i <= j
    /\ scales record !! i = Some s /\ scales record !! j = Some s'
    /\ (s <= s')%Qc
    /\ selectFile record requested = files record !! i
    /\ selectFile record requested' = files record !! j.
Proof.
  intros Hrecord Hle.
  destruct (record_invariant _ _ _ _ Hrecord) as (Hlen & Hne & Hsorted).
  assert (exists i j s s',
    i <= j
    /\ scales record !! i = Some s /\ scales record !! j = Some s'
    /\ selectFile record requested = files record !! i
    /\ selectFile record requested' = files record !! j)
    as (i & j & s & s' & Hij & Hi & Hj & Hsel & Hsel').
  { unfold selectFile. rewrite index_last, last_lookup, <- Hlen.
    pose proof (firstAtLeast_spec (scales record) requested
                  (length (scales record)) 0 eq_refl) as Hloop.
    pose proof (firstAtLeast_spec (scales record) requested'
                  (length (scales record)) 0 eq_refl) as Hloop'.
    destruct (lookup_lt_is_Some_2 (scales record)
                (pred (length (scales record)))) as [top Htop].
    { destruct (scales record); [done|simpl; lia]. }
    destruct (firstAtLeast (scales record) requested _ _) as [i|],
      (firstAtLeast (scales record) requested' _ _) as [j|].
    - destruct Hloop as (_ & (s & Hs & Hge) & Hbelow).
      destruct Hloop' as (_ & (s' & Hs' & Hge') & _).
      exists i, j, s, s'. split_and!; [|done..].
      destruct (decide (i <= j)); [done|].
      specialize (Hbelow j s' ltac:(lia) Hs').
      destruct (Qclt_not_le _ _ Hbelow).
      exact (Qcle_trans _ _ _ Hle Hge').
    - destruct Hloop as (_ & (s & Hs & Hge) & _).
      exists i, (pred (length (scales record))), s, top.
      split_and!; [|done..].
      apply lookup_lt_Some in Hs. lia.
    - destruct Hloop' as (_ & (s' & Hs' & Hge') & _).
      specialize (Hloop j s' ltac:(lia) Hs').
      destruct (Qclt_not_le _ _ Hloop).
      exact (Qcle_trans _ _ _ Hle Hge').
    - exists (pred (length (scales record))), (pred (length (scales record))),
        top, top. by split_and!. }
  exists i, j, s, s'. split_and!; [done..| |done|done].
  by eapply sorted_lookup_le.
Qed.

(** ** Further properties of the requests *)

Lemma values_Fulfilled {A} (ps : list (Result A)) vs :
  Bluebird.values ps = Fulfilled vs <-> ps = Fulfilled <$> vs.
Proof.
  revert vs. induction ps as [|[v|e] ps IH]; intros vs; simpl.
  - split; [by intros [= <-]|]. by destruct vs.
  - destruct (Bluebird.values ps) as [vs'|e'] eqn:Hvalues; simpl.
    + split.
      * intros [= <-]. rewrite fmap_cons. f_equal. by apply IH.
      * destruct vs as [|v' vs]; [done|]. rewrite fmap_cons.
        intros [= -> Hps]. apply IH in Hps. by simplify_eq.
    + split; [done|]. destruct vs as [|v' vs]; [done|]. rewrite fmap_cons.
      intros [= -> Hps]. by apply IH in Hps.
  - split; [done|]. by destruct vs.
Qed.

Lemma values_Rejected {A} (ps : list (Result A)) e :
  Bluebird.values ps = Rejected e -> Rejected e ∈ ps.
Proof.
  induction ps as [|[v|e'] ps IH]; simpl; [done| |].
  - destruct (Bluebird.values ps) as [vs'|e'']; simpl; [done|].
    intros [= ->]. right. by apply IH.
  - intros [= ->]. by left.
Qed.

Lemma firstRejection_Some {A} (ps : list (Result A)) order e :
  Bluebird.firstRejection ps order = Some e -> Rejected e ∈ ps.
Proof.
  induction order as [|i order IH]; simpl; [done|].
  destruct (ps !! i) as [[v|e']|] eqn:Hi; [done| |done].
  intros [= ->]. by eapply list_elem_of_lookup_2.
Qed.

Lemma firstRejection_None {A} (vs : list A) order :
  Bluebird.firstRejection (Fulfilled <$> vs) order = None.
Proof.
  induction order as [|i order IH]; simpl; [done|].
  rewrite list_lookup_fmap. by destruct (vs !! i).
Qed.

(** [Promise.all] is fulfilled exactly when every promise is, and then
    with the values in array order, whatever the order of settling. *)
Lemma all_Fulfilled {A} (ps : list (Result A)) order vs :
  Bluebird.all ps order = Fulfilled vs <-> ps = Fulfilled <$> vs.
Proof.
  unfold Bluebird.all. split.
  - destruct (Bluebird.firstRejection ps order); [done|].
    apply values_Fulfilled.
  - intros ->. rewrite firstRejection_None. by apply values_Fulfilled.
Qed.

Lemma all_Rejected {A} (ps : list (Result A)) order e :
  Bluebird.all ps order = Rejected e -> Rejected e ∈ ps.
Proof.
  unfold Bluebird.all.
  destruct (Bluebird.firstRejection ps order) as [e'|] eqn:Hfirst.
  - intros [= <-]. by eapply firstRejection_Some.
  - apply values_Rejected.
Qed.

(** X7. For an asset that is resolved, [getAssetData] returns a
    descriptor exactly when every file of the record can be looked at;
    the descriptor does not depend on the order in which the stats
    settle; and when [getAssetData] is rejected, it is with the error of
    the stat of one of the files of the record. *)
Theorem getAssetData_stats this fs t assetPath record :
  record_of this fs t assetPath = Fulfilled record ->
  ((exists data, getAssetData_ this fs t assetPath = Fulfilled data)
   <-> forall file, file ∈ files record ->
         exists st, lstat fs file = Fulfilled st)
  /\ (forall data order,
        getAssetData_ this fs t assetPath = Fulfilled data ->
        getAssetData_ this fs {| probes := probes t; stats := order |}
          assetPath = Fulfilled data)
  /\ (forall e,
        getAssetData_ this fs t assetPath = Rejected e ->
        exists file, file ∈ files record /\ lstat fs file = Rejected e).
Proof.
  intros Hrecord.
  assert (forall order,
    getAssetData_ this fs {| probes := probes t; stats := order |} assetPath
    = Bluebird.all (lstat fs <$> files record) order >>= fun found =>
        Fulfilled {| Data.name := name (parse assetPath);
                     Data.type := "png";
                     Data.scales := scales record;
                     Data.hash := fingerprint found |}) as Hdata.
  { intros order. unfold getAssetData.
    change (record_of this fs {| probes := probes t; stats := order |}
              assetPath) with (record_of this fs t assetPath).
    by rewrite Hrecord. }
  assert (getAssetData_ this fs t assetPath
          = getAssetData_ this fs {| probes := probes t; stats := stats t |}
              assetPath) as Ht by by destruct t.
  split_and!.
  - rewrite Ht, Hdata. split.
    + intros [data Hall] file [i Hi]%list_elem_of_lookup.
      destruct (Bluebird.all _ _) as [found|] eqn:Hfound; [|done].
      apply all_Fulfilled in Hfound.
      apply (f_equal (fun ps => ps !! i)) in Hfound.
      rewrite !list_lookup_fmap, Hi in Hfound. simpl in Hfound.
      destruct (found !! i) as [st|]; [|done]. simpl in Hfound.
      exists st. congruence.
    + intros Hall.
      assert (exists found, lstat fs <$> files record = Fulfilled <$> found)
        as [found Hfound].
      { revert Hall. generalize (files record).
        induction l as [|file l IH]; intros Hall.
        - by exists [].
        - destruct (Hall file) as [st Hst]; [by left|].
          destruct IH as [found Hfound].
          { intros file' Hfile'. apply Hall. by right. }
          exists (st :: found). by rewrite !fmap_cons, Hst, Hfound. }
      apply (all_Fulfilled _ (stats t)) in Hfound. rewrite Hfound. simpl. eauto.
  - intros data order. rewrite Ht, !Hdata.
    destruct (Bluebird.all _ (stats t)) as [found|] eqn:Hfound; [|done].
    apply all_Fulfilled in Hfound.
    apply (all_Fulfilled _ order) in Hfound. by rewrite Hfound.
  - intros e. rewrite Ht, Hdata.
    destruct (Bluebird.all _ _) as [found|e'] eqn:Hfound; [done|].
    simpl. intros [= ->]. apply all_Rejected in Hfound.
    apply list_elem_of_fmap in Hfound as (file & Hfile & Hin). eauto.
Qed.

(** X8. [get] is rejected in four cases only, and then with these
    errors: that of [findRoot], when no directory is found; that of
    [readDir], when the directory cannot be listed; ["Asset not found"],
    when the listing has no file of the name; and that of [readFile] on
    the file selected from the record.  It never asks [readFile] for a
    path that is not a file of the record. *)
Theorem get_rejections this fs t assetPath e :
  get_ this fs t assetPath = Rejected e
  <-> findRoot_ fs t (_roots this) (path_dirname assetPath) = Rejected e
      \/ (exists dir,
            findRoot_ fs t (_roots this) (path_dirname assetPath)
            = Fulfilled dir
            /\ readDir fs dir = Rejected e)
      \/ (exists dir listing,
            findRoot_ fs t (_roots this) (path_dirname assetPath)
            = Fulfilled dir
            /\ readDir fs dir = Fulfilled listing
            /\ build dir listing
                 !! assetName (parse (path_basename assetPath)) = None
            /\ e = Error "Asset not found")
      \/ (exists record file,
            record_of this fs t assetPath = Fulfilled record
            /\ selectFile record (resolution (parse assetPath)) = Some file
            /\ file ∈ files record
            /\ readFile fs file = Rejected e).
Proof.
  unfold get.
  destruct (record_of this fs t assetPath) as [record|e'] eqn:Hrecord; simpl.
  - destruct (_getAssetRecord_built _ _ _ _ _ Hrecord)
      as (dir & listing & Hdir & Hlisting & Hbuilt).
    destruct (record_nonempty_files dir listing _ record
                (resolution (parse assetPath)) Hbuilt) as (file & Hsel & Hin).
    rewrite Hsel. simpl. split.
    + intros Hread. do 3 right. by exists record, file.
    + intros [Hfind|[(dir' & Hdir' & Hread)
                    |[(dir' & listing' & Hdir' & Hlisting' & Hnone & _)
                     |(record' & file' & [= <-] & Hsel' & _ & Hread)]]].
      * congruence.
      * congruence.
      * congruence.
      * congruence.
  - unfold _getAssetRecord in Hrecord. split.
    + intros [= <-].
      destruct (findRoot_ _ _ _ _) as [dir|e''] eqn:Hdir; simpl in Hrecord;
        [|left; congruence].
      destruct (readDir fs dir) as [listing|e''] eqn:Hlisting;
        simpl in Hrecord; [|right; left; exists dir; split; congruence].
      destruct (build dir listing !! _) eqn:Hbuilt; [done|].
      right. right. left. exists dir, listing. split_and!; congruence.
    + intros [Hfind|[(dir' & Hdir' & Hread)
                    |[(dir' & listing' & Hdir' & Hlisting' & Hnone & ->)
                     |(record' & file' & [=] & _)]]].
      * rewrite Hfind in Hrecord. simpl in Hrecord. congruence.
      * rewrite Hdir' in Hrecord. simpl in Hrecord.
        rewrite Hread in Hrecord. simpl in Hrecord. congruence.
      * rewrite Hdir' in Hrecord. simpl in Hrecord.
        rewrite Hlisting' in Hrecord. simpl in Hrecord.
        rewrite Hnone in Hrecord. congruence.
Qed.

(** X9. The scales of a descriptor are the resolutions of the listed
    files that have the asset name of the request, each as often as it
    is listed, in ascending order. *)
Theorem getAssetData_scales this fs t assetPath dir listing data :
  findRoot_ fs t (_roots this) (path_dirname assetPath) = Fulfilled dir ->
  readDir fs dir = Fulfilled listing ->
  getAssetData_ this fs t assetPath = Fulfilled data ->
  Sorted Qcle (Data.scales data)
  /\ Data.scales data
     ≡ₚ (fun file => resolution (parse file))
          <$> filter (fun file =>
                        assetName (parse file)
                        = assetName (parse (path_basename assetPath)))
                listing.
Proof.
  intros Hdir Hlisting Hdata.
  set (n := assetName (parse (path_basename assetPath))) in *.
  unfold getAssetData in Hdata.
  destruct (record_of this fs t assetPath) as [record|] eqn:Hrecord; [|done].
  simpl in Hdata.
  destruct (Bluebird.all _ _) as [found|]; [|done].
  simpl in Hdata. injection Hdata as <-. simpl.
  destruct (_getAssetRecord_built _ _ _ _ _ Hrecord)
    as (dir' & listing' & Hdir' & Hlisting' & Hbuilt).
  assert (dir' = dir) as -> by congruence.
  assert (listing' = listing) as -> by congruence.
  fold n in Hbuilt.
  destruct (record_invariant _ _ _ _ Hbuilt) as (_ & _ & Hsorted).
  split; [by apply StronglySorted_Sorted|].
  destruct (lookup_record _ _ _ _ Hbuilt) as [_ ->]. simpl.
  rewrite insertAll_Permutation. unfold variants.
  change (List.map ?f ?l) with (f <$> l).
  by rewrite <- list_fmap_compose.
Qed.

(** ** The fingerprint of a descriptor *)

Lemma digested_foldr found :
  digested found = foldr (fun st s => pretty (mtime st) +:+ s) "" found.
Proof.
  induction found as [|st found IH]; [done|].
  by rewrite digested_cons, IH.
Qed.

(** The hash of a descriptor is the fingerprint of the stats of the
    files of the record. *)
Lemma getAssetData_hash this fs t assetPath record data :
  record_of this fs t assetPath = Fulfilled record ->
  getAssetData_ this fs t assetPath = Fulfilled data ->
  exists found,
    lstat fs <$> files record = Fulfilled <$> found
    /\ Data.hash data = fingerprint found.
Proof.
  intros Hrecord. unfold getAssetData. rewrite Hrecord. simpl.
  change (List.map (lstat fs) (files record))
    with (lstat fs <$> files record).
  destruct (Bluebird.all _ _) as [found|] eqn:Hfound; [|done].
  simpl. intros [= <-]. exists found.
  split; [by eapply all_Fulfilled|done].
Qed.

Lemma mtimeOf_Fulfilled fs file st :
  lstat fs file = Fulfilled st -> mtimeOf fs file = Some (mtime st).
Proof. unfold mtimeOf, lstat_ok. by intros ->. Qed.

(** Files with the same modification times have stats with the same
    modification times. *)
Lemma same_times fs fs' (l : list string) : forall found found',
  lstat fs <$> l = Fulfilled <$> found ->
  lstat fs' <$> l = Fulfilled <$> found' ->
  (forall file, file ∈ l -> mtimeOf fs' file = mtimeOf fs file) ->
  mtime <$> found' = mtime <$> found.
Proof.
  induction l as [|file l IH]; intros found found' Hfound Hfound' Hsame.
  - symmetry in Hfound, Hfound'.
    apply fmap_nil_inv in Hfound, Hfound'. by subst.
  - rewrite fmap_cons in Hfound, Hfound'. symmetry in Hfound, Hfound'.
    apply fmap_cons_inv in Hfound as (st & rest & Hst & Hrest & ->).
    apply fmap_cons_inv in Hfound' as (st' & rest' & Hst' & Hrest' & ->).
    rewrite !fmap_cons. f_equal.
    + pose proof (Hsame file ltac:(by left)) as Hfile.
      rewrite (mtimeOf_Fulfilled fs file st),
        (mtimeOf_Fulfilled fs' file st') in Hfile by done.
      congruence.
    + apply IH; [done..|]. intros other Hother. apply Hsame. by right.
Qed.

(** The stats of files listed one after the other. *)
Lemma stats_app fs (pre post : list string) found :
  lstat fs <$> (pre ++ post) = Fulfilled <$> found ->
  exists a b,
    found = a ++ b
    /\ lstat fs <$> pre = Fulfilled <$> a
    /\ lstat fs <$> post = Fulfilled <$> b.
Proof.
  rewrite fmap_app. intros Hfound. symmetry in Hfound.
  apply fmap_app_inv in Hfound as (a & b & Ha & Hb & ->). eauto.
Qed.

Lemma stats_middle fs (pre : list string) file post found :
  lstat fs <$> (pre ++ file :: post) = Fulfilled <$> found ->
  exists a st b,
    found = a ++ st :: b
    /\ lstat fs <$> pre = Fulfilled <$> a
    /\ lstat fs file = Fulfilled st
    /\ lstat fs <$> post = Fulfilled <$> b.
Proof.
  intros (a & b' & -> & Ha & Hb)%stats_app.
  rewrite fmap_cons in Hb. symmetry in Hb.
  apply fmap_cons_inv in Hb as (st & b & Hst & Hb & ->).
  exists a, st, b. by split_and!.
Qed.

(** One more time, or one other time, makes another digested string. *)
Lemma digested_changed a a' b b' x x' :
  mtime <$> a' = mtime <$> a -> mtime <$> b' = mtime <$> b ->
  mtime x' <> mtime x ->
  digested (a' ++ x' :: b') <> digested (a ++ x :: b).
Proof.
  intros Ha Hb Hne Heq. apply Hne.
  rewrite !digested_app, !digested_cons in Heq.
  rewrite (digested_mtime a' a), (digested_mtime b' b) in Heq by done.
  apply (inj (String.app _)) in Heq.
  apply append_inj_r in Heq. by apply (inj pretty) in Heq.
Qed.

Lemma digested_added a a' b b' x' :
  mtime <$> a' = mtime <$> a -> mtime <$> b' = mtime <$> b ->
  digested (a' ++ x' :: b') <> digested (a ++ b).
Proof.
  intros Ha Hb Heq.
  rewrite !digested_app, !digested_cons in Heq.
  rewrite (digested_mtime a' a), (digested_mtime b' b) in Heq by done.
  apply (inj (String.app _)) in Heq.
  apply (f_equal String.length) in Heq.
  rewrite append_length in Heq.
  pose proof (pretty_Z_nonempty (mtime x')). lia.
Qed.

(** C6, as the code has it.  Take two states of the file system in each
    of which [getAssetData] resolves the asset and returns a descriptor.
    In each state the hash of the descriptor is the MD5 digest of the
    decimal numerals of the modification times that [lstat] reports for
    the files of the record, one after the other in the order of the
    record.  When the two records have the same files in the same order
    and no file has another modification time, the hashes are equal.
    The digested strings, and with them the hashes unless MD5 collides,
    differ when the records have the same files in the same order and
    exactly one of them has another modification time, and when the
    files of one record are those of the other and one more, the others
    keeping their modification times. *)
Theorem fingerprint_sensitivity
    this fs fs' t t' assetPath record record' data data' :
  record_of this fs t assetPath = Fulfilled record ->
  record_of this fs' t' assetPath = Fulfilled record' ->
  getAssetData_ this fs t assetPath = Fulfilled data ->
  getAssetData_ this fs' t' assetPath = Fulfilled data' ->
  exists found found',
    lstat fs <$> files record = Fulfilled <$> found
    /\ lstat fs' <$> files record' = Fulfilled <$> found'
    /\ Data.hash data = MD5.md5hex (digested found)
    /\ Data.hash data' = MD5.md5hex (digested found')
    /\ digested found
       = foldr (fun st s => pretty (mtime st) +:+ s) "" found
    /\ digested found'
       = foldr (fun st s => pretty (mtime st) +:+ s) "" found'
    /\ (files record' = files record ->
        (forall file,
           file ∈ files record -> mtimeOf fs' file = mtimeOf fs file) ->
        Data.hash data' = Data.hash data)
    /\ (forall pre file post,
          files record = pre ++ file :: post ->
          files record' = pre ++ file :: post ->
          (forall other,
             other ∈ pre ++ post -> mtimeOf fs' other = mtimeOf fs other) ->
          mtimeOf fs' file <> mtimeOf fs file ->
          digested found' <> digested found)
    /\ (forall pre file post,
          files record = pre ++ post ->
          files record' = pre ++ file :: post ->
          (forall other,
             other ∈ pre ++ post -> mtimeOf fs' other = mtimeOf fs other) ->
          digested found' <> digested found)
    /\ (forall pre file post,
          files record = pre ++ file :: post ->
          files record' = pre ++ post ->
          (forall other,
             other ∈ pre ++ post -> mtimeOf fs' other = mtimeOf fs other) ->
          digested found' <> digested found).
Proof.
  intros Hrecord Hrecord' Hdata Hdata'.
  destruct (getAssetData_hash _ _ _ _ _ _ Hrecord Hdata)
    as (found & Hfound & Hhash).
  destruct (getAssetData_hash _ _ _ _ _ _ Hrecord' Hdata')
    as (found' & Hfound' & Hhash').
  exists found, found'.
  split_and!; [done|done|done|done|apply digested_foldr..| | | |].
  - intros Hfiles Hsame. rewrite Hfiles in Hfound'.
    rewrite Hhash, Hhash'. unfold fingerprint. f_equal.
    apply digested_mtime. by eapply same_times.
  - intros pre file post Hfiles Hfiles' Hsame Hne.
    rewrite Hfiles in Hfound. rewrite Hfiles' in Hfound'.
    apply stats_middle in Hfound as (a & x & b & -> & Ha & Hx & Hb).
    apply stats_middle in Hfound' as (a' & x' & b' & -> & Ha' & Hx' & Hb').
    apply digested_changed.
    + eapply same_times; [done..|].
      intros other Hother. apply Hsame, elem_of_app. by left.
    + eapply same_times; [done..|].
      intros other Hother. apply Hsame, elem_of_app. by right.
    + rewrite (mtimeOf_Fulfilled fs file x),
        (mtimeOf_Fulfilled fs' file x') in Hne by done.
      congruence.
  - intros pre file post Hfiles Hfiles' Hsame.
    rewrite Hfiles in Hfound. rewrite Hfiles' in Hfound'.
    apply stats_app in Hfound as (a & b & -> & Ha & Hb).
    apply stats_middle in Hfound' as (a' & x' & b' & -> & Ha' & Hx' & Hb').
    apply digested_added.
    + eapply same_times; [done..|].
      intros other Hother. apply Hsame, elem_of_app. by left.
    + eapply same_times; [done..|].
      intros other Hother. apply Hsame, elem_of_app. by right.
  - intros pre file post Hfiles Hfiles' Hsame.
    rewrite Hfiles in Hfound. rewrite Hfiles' in Hfound'.
    apply stats_middle in Hfound as (a & x & b & -> & Ha & Hx & Hb).
    apply stats_app in Hfound' as (a' & b' & -> & Ha' & Hb').
    intros Heq. symmetry in Heq. revert Heq. apply digested_added.
    + symmetry. eapply same_times; [done..|].
      intros other Hother. apply Hsame, elem_of_app. by left.
    + symmetry. eapply same_times; [done..|].
      intros other Hother. apply Hsame, elem_of_app. by right.
Qed.

End ServerFacts.

(** * The properties on the sample installation *)

Local Abbreviation sample_build := (buildAssetMap Sample.parse Sample.join).
Local Abbreviation sample_offered := (variants Sample.parse Sample.join).
Local Abbreviation sample_findRoot := (findRoot Sample.join).
Local Abbreviation sample_probe := (probe Sample.join).
Local Abbreviation sample_record :=
  (_getAssetRecord Sample.parse Sample.join Sample.basename Sample.dirname).
Local Abbreviation sample_get :=
  (get Sample.parse Sample.join Sample.basename Sample.dirname).
Local Abbreviation sample_getAssetData :=
  (getAssetData Sample.parse Sample.join Sample.basename Sample.dirname).

(** The example of the specification: with [icon.png] and [icon@2x.png]
    in the project, [icon@3x.png] is served by the file at scale 2, and
    the descriptor of the icon has the scales 1 and 2. *)
Example get_example :
  sample_get Sample.server
    (Sample.project ["icon.png"; "icon@2x.png"] 100 200 300)
    (Sample.oneRoot [0; 1]) "icon@3x.png"
  = Fulfilled "icon at 2x".
Proof. vm_compute. reflexivity. Qed.

Example getAssetData_example :
  sample_getAssetData Sample.server
    (Sample.project ["icon.png"; "icon@2x.png"] 100 200 300)
    (Sample.oneRoot [0; 1]) "icon.png"
  = Fulfilled {| Data.name := "icon"; Data.type := "png";
                 Data.scales := [Q2Qc 1; Q2Qc 2];
                 Data.hash := MD5.md5hex "100200" |}.
Proof. vm_compute. reflexivity. Qed.

(** Scales 1, 2 and 3: a request for 2 is served at 2, one for 2.5 at 3,
    one for 5 at 3. *)
Example get_rounds_up :
  let fs := Sample.project Sample.listed 100 200 300 in
  let t := Sample.oneRoot [0; 1; 2] in
  sample_get Sample.server fs t "icon@2x.png" = Fulfilled "icon at 2x"
  /\ sample_get Sample.server fs t "icon@2.5x.png" = Fulfilled "icon at 3x"
  /\ sample_get Sample.server fs t "icon@5x.png" = Fulfilled "icon at 3x".
Proof. vm_compute. done. Qed.

(** Resolutions 3, 1 and 2 of one name give the scales 1, 2 and 3. *)
Example buildAssetMap_example :
  sample_build "/proj" Sample.listed !! "icon.png" = Some Sample.icons.
Proof. vm_compute. reflexivity. Qed.

(** In whatever order the three files are listed. *)
Example buildAssetMap_any_order listing :
  Sample.listed ≡ₚ listing ->
  sample_build "/proj" listing !! "icon.png" = Some Sample.icons.
Proof.
  intros Hperm.
  pose proof (offered_Permutation Sample.parse Sample.join "/proj" "icon.png"
                _ _ Hperm) as Hoffered.
  rewrite buildAssetMap_lookup.
  destruct (decide (sample_offered "/proj" "icon.png" listing = []))
    as [Hnil|_].
  { rewrite Hnil in Hoffered. by apply Permutation_nil_r in Hoffered. }
  f_equal.
  assert (insertAll (sample_offered "/proj" "icon.png" listing) []
          = insertAll (sample_offered "/proj" "icon.png" Sample.listed) [])
    as ->; [|vm_compute; reflexivity].
  apply sorted_atScale_eq; [apply insertAll_sorted..|].
  intros s. rewrite !insertAll_atScale. symmetry.
  apply distinct_scales_atScale; [|done].
  refine (bool_decide_unpack _ _). vm_compute. exact I.
Qed.

Lemma get_nearest_match_witness :
  let fs := Sample.project Sample.listed 100 200 300 in
  let t := Sample.oneRoot [0; 1; 2] in
  let assetPath := "icon@2.5x.png" in
  let record := Sample.icons in
  sample_record Sample.server fs t assetPath = Fulfilled record
  /\ Sorted Qcle (scales record)
  /\ ((exists i s file,
         scales record !! i = Some s /\ files record !! i = Some file
         /\ (resolution (Sample.parse assetPath) <= s)%Qc
         /\ (forall j s',
               scales record !! j = Some s' ->
               (resolution (Sample.parse assetPath) <= s')%Qc ->
               i <= j /\ (s <= s')%Qc)
         /\ sample_get Sample.server fs t assetPath = readFile fs file)
      \/ ((forall s,
             s ∈ scales record -> (s < resolution (Sample.parse assetPath))%Qc)
          /\ exists s file,
               last (scales record) = Some s
               /\ last (files record) = Some file
               /\ (forall s', s' ∈ scales record -> (s' <= s)%Qc)
               /\ sample_get Sample.server fs t assetPath = readFile fs file)).
Proof.
  intros fs t assetPath record.
  assert (sample_record Sample.server fs t assetPath = Fulfilled record)
    as Hrecord by (vm_compute; reflexivity).
  split; [exact Hrecord|].
  exact (get_nearest_match Sample.parse Sample.join Sample.basename
           Sample.dirname Sample.server fs t assetPath record Hrecord).
Defined.

Lemma listed_sorted : Sample.listed ≡ₚ Sample.sorted.
Proof. apply (Permutation_cons_append ["icon.png"; "icon@2x.png"]). Defined.

Lemma buildAssetMap_ordering_witness :
  Sample.listed ≡ₚ Sample.sorted
  /\ (sample_build "/proj" Sample.sorted !! "icon.png" = None
      <-> sample_offered "/proj" "icon.png" Sample.sorted = [])
  /\ forall record,
       sample_build "/proj" Sample.sorted !! "icon.png" = Some record ->
       length (scales record) = length (files record)
       /\ Sorted Qcle (scales record)
       /\ entries record ≡ₚ sample_offered "/proj" "icon.png" Sample.listed
       /\ (forall s,
             atScale s (entries record)
             = atScale s (sample_offered "/proj" "icon.png" Sample.sorted))
       /\ exists record0,
            sample_build "/proj" Sample.listed !! "icon.png" = Some record0
            /\ scales record0 = scales record.
Proof.
  split; [exact listed_sorted|].
  exact (buildAssetMap_ordering Sample.parse Sample.join "/proj"
           Sample.listed Sample.sorted "icon.png" listed_sorted).
Defined.

Lemma record_nonempty_witness :
  sample_build "/proj" Sample.listed !! "icon.png" = Some Sample.icons
  /\ scales Sample.icons <> [] /\ files Sample.icons <> []
  /\ length (scales Sample.icons) = length (files Sample.icons)
  /\ (exists file,
        index (files Sample.icons)
          (Z.of_nat (length (files Sample.icons)) - 1) = Some file
        /\ file ∈ files Sample.icons)
  /\ forall requested, exists file,
       selectFile Sample.icons requested = Some file
       /\ file ∈ files Sample.icons.
Proof.
  assert (sample_build "/proj" Sample.listed !! "icon.png"
          = Some Sample.icons) as Hrecord by (vm_compute; reflexivity).
  split; [exact Hrecord|].
  exact (record_nonempty Sample.parse Sample.join "/proj" Sample.listed
           "icon.png" Sample.icons Hrecord).
Defined.

(** ** The roots *)

Lemma twoRoots_isDir root :
  root ∈ ["/A"; "/B"] -> isDir Sample.twoRoots (Sample.join root "d").
Proof.
  intros Hroot. exists {| isDirectory := true; mtime := 0 |}.
  repeat (apply elem_of_cons in Hroot as [->|Hroot]; [by vm_compute|]).
  by apply elem_of_nil in Hroot.
Defined.

(** C3 does not hold of the code: both [/A] and [/B] hold the directory
    [d], the probe of [/B] settles first, and [findRoot] answers with the
    path under [/B], not with the path under [/A], the first root. *)
Lemma findRoot_root_order_counterexample :
  let t := Sample.settling [1; 0] in
  let roots := ["/A"; "/B"] in
  probes t ≡ₚ seq 0 (length roots)
  /\ isDir Sample.twoRoots (Sample.join "/A" "d")
  /\ isDir Sample.twoRoots (Sample.join "/B" "d")
  /\ sample_findRoot Sample.twoRoots t roots "d" = Fulfilled "/B/d"
  /\ sample_findRoot Sample.twoRoots t roots "d"
     <> Fulfilled (Sample.join "/A" "d").
Proof.
  split_and!.
  - apply Permutation_swap.
  - apply twoRoots_isDir. set_solver.
  - apply twoRoots_isDir. set_solver.
  - vm_compute. reflexivity.
  - vm_compute. discriminate.
Qed.

Lemma findRoot_first_settled_witness :
  let fs := Sample.twoRoots in
  let t := Sample.settling [1; 0] in
  let roots := ["/A"; "/B"] in
  let dir := "d" in
  probes t ≡ₚ seq 0 (length roots)
  /\ (exists root, root ∈ roots /\ isDir fs (Sample.join root dir))
  /\ exists before i after root,
       probes t = before ++ i :: after
       /\ roots !! i = Some root
       /\ isDir fs (Sample.join root dir)
       /\ (forall j root', j ∈ before -> roots !! j = Some root' ->
             ~ isDir fs (Sample.join root' dir))
       /\ sample_findRoot fs t roots dir = Fulfilled (Sample.join root dir)
       /\ (probes t = seq 0 (length roots) ->
           forall j root', j < i -> roots !! j = Some root' ->
             ~ isDir fs (Sample.join root' dir)).
Proof.
  intros fs t roots dir.
  assert (probes t ≡ₚ seq 0 (length roots)) as Hperm
    by apply Permutation_swap.
  assert (exists root, root ∈ roots /\ isDir fs (Sample.join root dir))
    as Hsome.
  { exists "/A". split; [by left|]. apply twoRoots_isDir. by left. }
  split_and!; [exact Hperm|exact Hsome|].
  exact (findRoot_first_settled Sample.join fs t roots dir Hperm Hsome).
Defined.

(** C4 does not hold of the code: the probe of [/A/d] fails for want of
    permission, and [findRoot] passes over it and answers with the path
    under [/B]; with [/A] as only root, it is rejected with an aggregate
    error, not with the error of the probe. *)
Lemma findRoot_permission_counterexample :
  let denied := SystemError "EACCES" "/A/d" in
  sample_probe Sample.deniedRoot "d" "/A" = Rejected denied
  /\ sample_findRoot Sample.deniedRoot (Sample.settling [0; 1])
       ["/A"; "/B"] "d"
     = Fulfilled "/B/d"
  /\ sample_findRoot Sample.deniedRoot (Sample.settling [0]) ["/A"] "d"
     = Rejected (AggregateError [denied])
  /\ sample_findRoot Sample.deniedRoot (Sample.settling [0]) ["/A"] "d"
     <> Rejected denied.
Proof. vm_compute. split_and!; [done..|discriminate]. Qed.

Lemma findRoot_passes_over_failures_witness :
  let fs := Sample.deniedRoot in
  let t := Sample.settling [0; 1] in
  let roots := ["/A"; "/B"] in
  let dir := "d" in
  probes t ≡ₚ seq 0 (length roots)
  /\ roots <> []
  /\ ((exists root, root ∈ roots /\ isDir fs (Sample.join root dir)) ->
      exists root,
        root ∈ roots /\ isDir fs (Sample.join root dir)
        /\ sample_findRoot fs t roots dir = Fulfilled (Sample.join root dir))
  /\ ((forall root, root ∈ roots -> ~ isDir fs (Sample.join root dir)) ->
      sample_findRoot fs t roots dir
      = Rejected (AggregateError
          (reasons (List.map (sample_probe fs dir) roots) (probes t)))
      /\ forall root e,
           root ∈ roots -> sample_probe fs dir root = Rejected e ->
           e ∈ reasons (List.map (sample_probe fs dir) roots) (probes t))
  /\ forall code path,
       sample_findRoot fs t roots dir <> Rejected (SystemError code path).
Proof.
  intros fs t roots dir.
  assert (probes t ≡ₚ seq 0 (length roots)) as Hperm by reflexivity.
  assert (roots <> []) as Hne by discriminate.
  split_and!; [exact Hperm|exact Hne|..];
    apply (findRoot_passes_over_failures Sample.join fs t roots dir Hperm Hne).
Defined.

(** ** Names without record *)

Lemma asset_not_found_witness :
  let this := Sample.server in
  let fs := Sample.project Sample.listed 100 200 300 in
  let t := Sample.oneRoot [0; 1; 2] in
  let assetPath := "logo.png" in
  sample_findRoot fs t (_roots this) (Sample.dirname assetPath)
  = Fulfilled "/proj"
  /\ readDir fs "/proj" = Fulfilled Sample.listed
  /\ sample_build "/proj" Sample.listed
       !! assetName (Sample.parse (Sample.basename assetPath)) = None
  /\ sample_record this fs t assetPath = Rejected (Error "Asset not found")
  /\ sample_get this fs t assetPath = Rejected (Error "Asset not found")
  /\ sample_getAssetData this fs t assetPath
     = Rejected (Error "Asset not found")
  /\ forall this' fs' t' assetPath',
       (forall root, root ∈ _roots this' ->
          ~ isDir fs' (Sample.join root (Sample.dirname assetPath'))) ->
       exists e,
         sample_findRoot fs' t' (_roots this') (Sample.dirname assetPath')
         = Rejected e
         /\ sample_record this' fs' t' assetPath' = Rejected e
         /\ sample_get this' fs' t' assetPath' = Rejected e
         /\ sample_getAssetData this' fs' t' assetPath' = Rejected e
         /\ e <> Error "Asset not found".
Proof.
  intros this fs t assetPath.
  assert (sample_findRoot fs t (_roots this) (Sample.dirname assetPath)
          = Fulfilled "/proj") as Hdir by (vm_compute; reflexivity).
  assert (readDir fs "/proj" = Fulfilled Sample.listed) as Hlisting
    by (vm_compute; reflexivity).
  assert (sample_build "/proj" Sample.listed
            !! assetName (Sample.parse (Sample.basename assetPath)) = None)
    as Hnone by (vm_compute; reflexivity).
  split_and!; [exact Hdir|exact Hlisting|exact Hnone|..];
    apply (asset_not_found Sample.parse Sample.join Sample.basename
             Sample.dirname this fs t assetPath "/proj" Sample.listed
             Hdir Hlisting Hnone).
Defined.

(** ** The descriptor *)




(** C6 does not hold of the code: the two variants of the icon exchange
    their modification times, so that both times change, and the
    descriptor, with its hash, stays the same. *)
Lemma fingerprint_unchanged_counterexample :
  let listing := ["icon.png"; "icon@2x.png"] in
  let fs := Sample.project listing 1111111111111 111111111111 0 in
  let fs' := Sample.project listing 111111111111 1111111111111 0 in
  let t := Sample.oneRoot [0; 1] in
  mtime <$> lstat_ok fs "/proj/icon.png" = Some 1111111111111%Z
  /\ mtime <$> lstat_ok fs' "/proj/icon.png" = Some 111111111111%Z
  /\ mtime <$> lstat_ok fs "/proj/icon@2x.png" = Some 111111111111%Z
  /\ mtime <$> lstat_ok fs' "/proj/icon@2x.png" = Some 1111111111111%Z
  /\ exists data,
       sample_getAssetData Sample.server fs t "icon.png" = Fulfilled data
       /\ sample_getAssetData Sample.server fs' t "icon.png" = Fulfilled data
       /\ Data.hash data = MD5.md5hex "1111111111111111111111111".
Proof.
  split_and!; [vm_compute; reflexivity..|].
  eexists. split_and!; vm_compute; reflexivity.
Qed.

(** C8 does not hold of the code: the descriptor of [photo.jpg], whose
    extension is [jpg], has the type [png]. *)
Lemma getAssetData_type_counterexample :
  let fs := Sample.project ["photo.jpg"] 100 200 300 in
  extension (Sample.parse "photo.jpg") = "jpg"
  /\ exists data,
       sample_getAssetData Sample.server fs (Sample.oneRoot [0]) "photo.jpg"
       = Fulfilled data
       /\ Data.type data = "png"
       /\ Data.type data <> extension (Sample.parse "photo.jpg").
Proof.
  split; [vm_compute; reflexivity|].
  eexists. split_and!; [vm_compute; reflexivity..|].
  vm_compute. discriminate.
Qed.

Lemma getAssetData_descriptor_witness :
  let this := Sample.server in
  let fs := Sample.project Sample.listed 100 200 300 in
  let t := Sample.oneRoot [0; 1; 2] in
  let assetPath := "icon@2x.png" in
  let record := Sample.icons in
  let found :=
    [ {| isDirectory := false; mtime := 100 |};
      {| isDirectory := false; mtime := 200 |};
      {| isDirectory := false; mtime := 300 |} ] in
  sample_record this fs t assetPath = Fulfilled record
  /\ Bluebird.all (List.map (lstat fs) (files record)) (stats t)
     = Fulfilled found
  /\ sample_getAssetData this fs t assetPath
     = Fulfilled {| Data.name := name (Sample.parse assetPath);
                    Data.type := "png";
                    Data.scales := scales record;
                    Data.hash := fingerprint found |}.
Proof.
  intros this fs t assetPath record found.
  assert (sample_record this fs t assetPath = Fulfilled record) as Hrecord
    by (vm_compute; reflexivity).
  assert (Bluebird.all (List.map (lstat fs) (files record)) (stats t)
          = Fulfilled found) as Hstats by (vm_compute; reflexivity).
  split_and!; [exact Hrecord|exact Hstats|].
  exact (getAssetData_descriptor Sample.parse Sample.join Sample.basename
           Sample.dirname this fs t assetPath record found Hrecord Hstats).
Defined.

Lemma assetExts_not_consulted_witness :
  let fs := Sample.project ["photo.jpg"; "icon.png"] 100 200 300 in
  let t := Sample.oneRoot [0] in
  let png := new_AssetServer
    {| projectRoots := ["/proj"]; assetExts := Some ["png"] |} in
  let gif := new_AssetServer
    {| projectRoots := ["/proj"]; assetExts := Some ["gif"] |} in
  _assetExts png <> _assetExts gif
  /\ sample_get png fs t "photo.jpg" = sample_get gif fs t "photo.jpg"
  /\ sample_getAssetData png fs t "photo.jpg"
     = sample_getAssetData gif fs t "photo.jpg"
  /\ sample_get png fs t "photo.jpg" = Fulfilled "a photograph".
Proof.
  intros fs t png gif.
  destruct (assetExts_not_consulted Sample.parse Sample.join Sample.basename
              Sample.dirname ["/proj"] (Some ["png"]) (Some ["gif"]) fs t
              "photo.jpg") as (Hget & Hdata & _).
  split_and!; [discriminate|exact Hget|exact Hdata|].
  vm_compute. reflexivity.
Defined.

(** ** The further properties on the sample installation *)

Lemma findRoot_sound_witness :
  let t := Sample.settling [1; 0] in
  sample_findRoot Sample.twoRoots t ["/A"; "/B"] "d" = Fulfilled "/B/d"
  /\ exists root,
       root ∈ ["/A"; "/B"] /\ "/B/d" = Sample.join root "d"
       /\ isDir Sample.twoRoots "/B/d".
Proof.
  intros t.
  assert (sample_findRoot Sample.twoRoots t ["/A"; "/B"] "d"
          = Fulfilled "/B/d") as Hfound by (vm_compute; reflexivity).
  split; [exact Hfound|].
  exact (findRoot_sound Sample.join Sample.twoRoots t ["/A"; "/B"] "d" "/B/d"
           Hfound).
Defined.

Lemma deniedRoot_isDir root :
  root ∈ ["/A"; "/B"] ->
  isDir Sample.deniedRoot (Sample.join root "d") ->
  Sample.join root "d" = Sample.join "/B" "d".
Proof.
  intros Hroot Hdir.
  apply elem_of_cons in Hroot as [->|Hroot].
  - destruct Hdir as (st & Hst & _). vm_compute in Hst. discriminate.
  - apply elem_of_cons in Hroot as [->|Hroot]; [reflexivity|].
    by apply elem_of_nil in Hroot.
Defined.

Lemma findRoot_unique_match_witness :
  let fs := Sample.deniedRoot in
  let t := Sample.settling [1; 0] in
  let roots := ["/A"; "/B"] in
  probes t ≡ₚ seq 0 (length roots)
  /\ "/B" ∈ roots
  /\ isDir fs (Sample.join "/B" "d")
  /\ (forall root',
        root' ∈ roots -> isDir fs (Sample.join root' "d") ->
        Sample.join root' "d" = Sample.join "/B" "d")
  /\ sample_findRoot fs t roots "d" = Fulfilled (Sample.join "/B" "d").
Proof.
  intros fs t roots.
  assert (probes t ≡ₚ seq 0 (length roots)) as Hperm
    by apply Permutation_swap.
  assert ("/B" ∈ roots) as Hroot by (right; left).
  assert (isDir fs (Sample.join "/B" "d")) as Hdir.
  { exists {| isDirectory := true; mtime := 0 |}. by vm_compute. }
  split_and!; [exact Hperm|exact Hroot|exact Hdir|exact deniedRoot_isDir|].
  exact (findRoot_unique_match Sample.join fs t roots "d" "/B" Hperm Hroot
           Hdir deniedRoot_isDir).
Defined.

Lemma buildAssetMap_other_names_witness :
  let listing := Sample.listed in
  let listing' :=
    ["logo.png"; "icon@3x.png"; "photo.jpg"; "icon.png"; "icon@2x.png"] in
  let named file := assetName (Sample.parse file) = "icon.png" in
  filter named listing = filter named listing'
  /\ sample_build "/proj" listing !! "icon.png"
     = sample_build "/proj" listing' !! "icon.png".
Proof.
  intros listing listing' named.
  assert (filter named listing = filter named listing') as Hsame
    by (vm_compute; reflexivity).
  split; [exact Hsame|].
  exact (buildAssetMap_other_names Sample.parse Sample.join "/proj" listing
           listing' "icon.png" Hsame).
Defined.

Lemma buildAssetMap_order_independent_witness :
  Sample.listed ≡ₚ Sample.sorted
  /\ NoDup ((fun file => (assetName (Sample.parse file),
                          resolution (Sample.parse file)))
              <$> Sample.listed)
  /\ sample_build "/proj" Sample.sorted = sample_build "/proj" Sample.listed.
Proof.
  assert (NoDup ((fun file => (assetName (Sample.parse file),
                               resolution (Sample.parse file)))
                   <$> Sample.listed)) as Hnodup.
  { refine (bool_decide_unpack _ _). vm_compute. exact I. }
  split_and!; [exact listed_sorted|exact Hnodup|].
  exact (buildAssetMap_order_independent Sample.parse Sample.join "/proj"
           Sample.listed Sample.sorted listed_sorted Hnodup).
Defined.

Lemma get_exact_match_witness :
  let this := Sample.server in
  let listing := ["icon@1x.png"; "icon@2x.png"; "icon.png"] in
  let fs := Sample.project listing 100 200 300 in
  let t := Sample.oneRoot [0; 1; 2] in
  let assetPath := "icon.png" in
  sample_findRoot fs t (_roots this) (Sample.dirname assetPath)
  = Fulfilled "/proj"
  /\ readDir fs "/proj" = Fulfilled listing
  /\ filter (fun f =>
               assetName (Sample.parse f)
               = assetName (Sample.parse (Sample.basename assetPath))
               /\ resolution (Sample.parse f)
                  = resolution (Sample.parse assetPath)) listing
     = ["icon@1x.png"; "icon.png"]
  /\ sample_get this fs t assetPath
     = readFile fs (Sample.join "/proj" "icon@1x.png").
Proof.
  intros this listing fs t assetPath.
  assert (sample_findRoot fs t (_roots this) (Sample.dirname assetPath)
          = Fulfilled "/proj") as Hdir by (vm_compute; reflexivity).
  assert (readDir fs "/proj" = Fulfilled listing) as Hlisting
    by (vm_compute; reflexivity).
  assert (filter (fun f =>
                    assetName (Sample.parse f)
                    = assetName (Sample.parse (Sample.basename assetPath))
                    /\ resolution (Sample.parse f)
                       = resolution (Sample.parse assetPath)) listing
          = ["icon@1x.png"; "icon.png"]) as Hfirst
    by (vm_compute; reflexivity).
  split_and!; [exact Hdir|exact Hlisting|exact Hfirst|].
  exact (get_exact_match Sample.parse Sample.join Sample.basename
           Sample.dirname this fs t assetPath "/proj" listing "icon@1x.png"
           ["icon.png"] Hdir Hlisting Hfirst).
Defined.

Lemma selectFile_monotone_witness :
  let record := Sample.icons in
  let requested := Q2Qc 2 in
  let requested' := Q2Qc (5 # 2) in
  sample_build "/proj" Sample.listed !! "icon.png" = Some record
  /\ (requested <= requested')%Qc
  /\ exists i j s s',
       i <= j
       /\ scales record !! i = Some s /\ scales record !! j = Some s'
       /\ (s <= s')%Qc
       /\ selectFile record requested = files record !! i
       /\ selectFile record requested' = files record !! j.
Proof.
  intros record requested requested'.
  assert (sample_build "/proj" Sample.listed !! "icon.png" = Some record)
    as Hrecord by (vm_compute; reflexivity).
  assert (requested <= requested')%Qc as Hle by (vm_compute; discriminate).
  split_and!; [exact Hrecord|exact Hle|].
  exact (selectFile_monotone Sample.parse Sample.join "/proj" Sample.listed
           "icon.png" record requested requested' Hrecord Hle).
Defined.

Lemma getAssetData_stats_witness :
  let this := Sample.server in
  let fs := Sample.project Sample.listed 100 200 300 in
  let t := Sample.oneRoot [0; 1; 2] in
  let assetPath := "icon.png" in
  let record := Sample.icons in
  sample_record this fs t assetPath = Fulfilled record
  /\ ((exists data, sample_getAssetData this fs t assetPath = Fulfilled data)
      <-> forall file, file ∈ files record ->
            exists st, lstat fs file = Fulfilled st)
  /\ (forall data order,
        sample_getAssetData this fs t assetPath = Fulfilled data ->
        sample_getAssetData this fs {| probes := probes t; stats := order |}
          assetPath = Fulfilled data)
  /\ (forall e,
        sample_getAssetData this fs t assetPath = Rejected e ->
        exists file, file ∈ files record /\ lstat fs file = Rejected e).
Proof.
  intros this fs t assetPath record.
  assert (sample_record this fs t assetPath = Fulfilled record) as Hrecord
    by (vm_compute; reflexivity).
  split; [exact Hrecord|].
  exact (getAssetData_stats Sample.parse Sample.join Sample.basename
           Sample.dirname this fs t assetPath record Hrecord).
Defined.

(** The listing names [logo.png], and there is no such file. *)
Lemma get_rejections_witness :
  let this := Sample.server in
  let fs := Sample.project ["logo.png"] 100 200 300 in
  let t := Sample.oneRoot [0] in
  let gone := SystemError "ENOENT" "/proj/logo.png" in
  sample_get this fs t "logo.png" = Rejected gone
  /\ exists record file,
       sample_record this fs t "logo.png" = Fulfilled record
       /\ selectFile record (resolution (Sample.parse "logo.png")) = Some file
       /\ file ∈ files record
       /\ readFile fs file = Rejected gone.
Proof.
  intros this fs t gone.
  assert (sample_get this fs t "logo.png" = Rejected gone) as Hget
    by (vm_compute; reflexivity).
  split; [exact Hget|].
  destruct (proj1 (get_rejections Sample.parse Sample.join Sample.basename
                     Sample.dirname this fs t "logo.png" gone) Hget)
    as [Hfind|[(dir & Hdir & Hread)|[(dir & listing & _ & _ & _ & He)|Hfile]]].
  - vm_compute in Hfind. discriminate.
  - vm_compute in Hdir. injection Hdir as <-.
    vm_compute in Hread. discriminate.
  - discriminate.
  - exact Hfile.
Defined.

Lemma getAssetData_scales_witness :
  let this := Sample.server in
  let listing := ["logo.png"; "icon@3x.png"; "icon.png"; "icon@1x.png"] in
  let fs := Sample.project listing 100 200 300 in
  let t := Sample.oneRoot [0; 1; 2] in
  let assetPath := "icon@2x.png" in
  let data :=
    {| Data.name := "icon"; Data.type := "png";
       Data.scales := [Q2Qc 1; Q2Qc 1; Q2Qc 3];
       Data.hash := MD5.md5hex "100200300" |} in
  sample_findRoot fs t (_roots this) (Sample.dirname assetPath)
  = Fulfilled "/proj"
  /\ readDir fs "/proj" = Fulfilled listing
  /\ sample_getAssetData this fs t assetPath = Fulfilled data
  /\ Sorted Qcle (Data.scales data)
  /\ Data.scales data
     ≡ₚ (fun file => resolution (Sample.parse file))
          <$> filter (fun file =>
                        assetName (Sample.parse file)
                        = assetName (Sample.parse (Sample.basename assetPath)))
                listing.
Proof.
  intros this listing fs t assetPath data.
  assert (sample_findRoot fs t (_roots this) (Sample.dirname assetPath)
          = Fulfilled "/proj") as Hdir by (vm_compute; reflexivity).
  assert (readDir fs "/proj" = Fulfilled listing) as Hlisting
    by (vm_compute; reflexivity).
  assert (sample_getAssetData this fs t assetPath = Fulfilled data) as Hdata
    by (vm_compute; reflexivity).
  split_and!; [exact Hdir|exact Hlisting|exact Hdata|..];
    apply (getAssetData_scales Sample.parse Sample.join Sample.basename
             Sample.dirname this fs t assetPath "/proj" listing data
             Hdir Hlisting Hdata).
Defined.

(** ** The fingerprint on the sample installation

    The icon at two scales, with the times 100 and 200; then the same
    after changes that do not touch the two files; with another time of
    the second file; and with a third variant. *)
Lemma fingerprint_sensitivity_witness :
  let this := Sample.server in
  let two := ["icon.png"; "icon@2x.png"] in
  let fs := Sample.project two 100 200 300 in
  let other := Sample.project ["logo.png"; "icon.png"; "icon@2x.png"]
                 100 200 999 in
  let later := Sample.project two 100 250 300 in
  let more := Sample.project Sample.listed 100 200 300 in
  let t := Sample.oneRoot [0; 1] in
  let t' := Sample.oneRoot [0; 1; 2] in
  let record :=
    {| scales := [Q2Qc 1; Q2Qc 2];
       files := ["/proj/icon.png"; "/proj/icon@2x.png"] |} in
  let descriptor scales digest :=
    {| Data.name := "icon"; Data.type := "png"; Data.scales := scales;
       Data.hash := MD5.md5hex digest |} in
  let data := descriptor [Q2Qc 1; Q2Qc 2] "100200" in
  let data_later := descriptor [Q2Qc 1; Q2Qc 2] "100250" in
  let data_more := descriptor [Q2Qc 1; Q2Qc 2; Q2Qc 3] "100200300" in
  (sample_record this fs t "icon.png" = Fulfilled record
   /\ sample_getAssetData this fs t "icon.png" = Fulfilled data)
  /\ (sample_record this other t "icon.png" = Fulfilled record
      /\ exists data_other,
           sample_getAssetData this other t "icon.png" = Fulfilled data_other
           /\ Data.hash data_other = Data.hash data)
  /\ (sample_record this later t "icon.png" = Fulfilled record
      /\ sample_getAssetData this later t "icon.png" = Fulfilled data_later
      /\ exists found found',
           lstat fs <$> files record = Fulfilled <$> found
           /\ lstat later <$> files record = Fulfilled <$> found'
           /\ Data.hash data = MD5.md5hex (digested found)
           /\ Data.hash data_later = MD5.md5hex (digested found')
           /\ digested found' <> digested found)
  /\ (sample_record this more t' "icon.png" = Fulfilled Sample.icons
      /\ sample_getAssetData this more t' "icon.png" = Fulfilled data_more
      /\ exists found found',
           lstat fs <$> files record = Fulfilled <$> found
           /\ lstat more <$> files Sample.icons = Fulfilled <$> found'
           /\ Data.hash data = MD5.md5hex (digested found)
           /\ Data.hash data_more = MD5.md5hex (digested found')
           /\ digested found' <> digested found).
Proof.
  intros this two fs other later more t t' record descriptor
    data data_later data_more.
  assert (sample_record this fs t "icon.png" = Fulfilled record) as Hr
    by (vm_compute; reflexivity).
  assert (sample_getAssetData this fs t "icon.png" = Fulfilled data) as Hd
    by (vm_compute; reflexivity).
  assert (sample_record this other t "icon.png" = Fulfilled record) as Hr0
    by (vm_compute; reflexivity).
  assert (sample_getAssetData this other t "icon.png" = Fulfilled data)
    as Hd0 by (vm_compute; reflexivity).
  assert (sample_record this later t "icon.png" = Fulfilled record) as Hr1
    by (vm_compute; reflexivity).
  assert (sample_getAssetData this later t "icon.png" = Fulfilled data_later)
    as Hd1 by (vm_compute; reflexivity).
  assert (sample_record this more t' "icon.png" = Fulfilled Sample.icons)
    as Hr2 by (vm_compute; reflexivity).
  assert (sample_getAssetData this more t' "icon.png" = Fulfilled data_more)
    as Hd2 by (vm_compute; reflexivity).
  assert (forall file,
            file ∈ ["/proj/icon.png"; "/proj/icon@2x.png"] ->
            mtimeOf other file = mtimeOf fs file
            /\ mtimeOf more file = mtimeOf fs file) as Hsame.
  { intros file Hfile.
    apply elem_of_cons in Hfile as [->|Hfile];
      [vm_compute; split; reflexivity|].
    apply elem_of_cons in Hfile as [->|Hfile];
      [vm_compute; split; reflexivity|].
    apply elem_of_nil in Hfile. destruct Hfile. }
  split; [|split; [|split]].
  - split; [exact Hr|exact Hd].
  - split; [exact Hr0|]. exists data. split; [exact Hd0|].
    destruct (fingerprint_sensitivity Sample.parse Sample.join
                Sample.basename Sample.dirname this fs other t t "icon.png"
                record record data data Hr Hr0 Hd Hd0)
      as (_ & _ & _ & _ & _ & _ & _ & _ & Hunchanged & _).
    apply Hunchanged; [reflexivity|].
    intros file Hfile. exact (proj1 (Hsame file Hfile)).
  - split; [exact Hr1|]. split; [exact Hd1|].
    destruct (fingerprint_sensitivity Sample.parse Sample.join
                Sample.basename Sample.dirname this fs later t t "icon.png"
                record record data data_later Hr Hr1 Hd Hd1)
      as (found & found' & Hfound & Hfound' & Hhash & Hhash' & _ & _ & _
          & Hchanged & _).
    exists found, found'.
    split; [exact Hfound|]. split; [exact Hfound'|].
    split; [exact Hhash|]. split; [exact Hhash'|].
    apply (Hchanged ["/proj/icon.png"] "/proj/icon@2x.png" []);
      [reflexivity|reflexivity| |vm_compute; discriminate].
    intros file Hfile. apply elem_of_cons in Hfile as [->|Hfile].
    + vm_compute. reflexivity.
    + apply elem_of_nil in Hfile. destruct Hfile.
  - split; [exact Hr2|]. split; [exact Hd2|].
    destruct (fingerprint_sensitivity Sample.parse Sample.join
                Sample.basename Sample.dirname this fs more t t' "icon.png"
                record Sample.icons data data_more Hr Hr2 Hd Hd2)
      as (found & found' & Hfound & Hfound' & Hhash & Hhash' & _ & _ & _ & _
          & Hadded & _).
    exists found, found'.
    split; [exact Hfound|]. split; [exact Hfound'|].
    split; [exact Hhash|]. split; [exact Hhash'|].
    apply (Hadded ["/proj/icon.png"; "/proj/icon@2x.png"]
             "/proj/icon@3x.png" []); [reflexivity|reflexivity|].
    intros file Hfile. rewrite app_nil_r in Hfile.
    exact (proj2 (Hsame file Hfile)).
Defined.
